(** * Homograph domain analyzer: variant generation, classification and ordering

    A shallow embedding of [homograph_domain_analyzer.py]: the domain parser
    and the sixteen variant techniques of [HomographGenerator], the DNS/WHOIS
    classification of [DomainAnalyzer], and the risk ordering applied by
    [main].  Python strings are sequences of Unicode code points, Python
    integers are unbounded, the set of emitted domains is a finite set, and
    the calls that leave the process (resolver, WHOIS, clock) are oracles
    whose use is recorded in an event log. *)

From Stdlib Require Import ZArith List Lia String Ascii Decimal.
From stdpp Require Import base decidable option list gmap sets sorting.
Import ListNotations.
Local Open Scope Z_scope.

(** ** Python values *)

(** A [str] is the list of its code points ([ord] of each character). *)
Abbreviation str := (list Z).

(** What a call that may raise gives back: its value, or the message of the
    exception ([str(e)]). *)
Inductive outcome (A : Type) : Type :=
| Returned (a : A)
| Raised (msg : str).
Arguments Returned {A} a.
Arguments Raised {A} msg.

(** *** String literals

    Literals of the source are written as in the source; [u] decodes the
    UTF-8 bytes of the literal into code points. *)

Fixpoint bytes_of (s : string) : list Z :=
  match s with
  | EmptyString => []
  | String a r => Z.of_nat (nat_of_ascii a) :: bytes_of r
  end.

Fixpoint utf8_decode (fuel : nat) (bs : list Z) : str :=
  match fuel with
  | O => []
  | S fuel' =>
    match bs with
    | [] => []
    | b0 :: r0 =>
      if b0 <? 128 then b0 :: utf8_decode fuel' r0
      else if b0 <? 224 then
        match r0 with
        | b1 :: r1 => ((b0 - 192) * 64 + (b1 - 128)) :: utf8_decode fuel' r1
        | _ => []
        end
      else if b0 <? 240 then
        match r0 with
        | b1 :: b2 :: r2 =>
          ((b0 - 224) * 4096 + (b1 - 128) * 64 + (b2 - 128)) :: utf8_decode fuel' r2
        | _ => []
        end
      else
        match r0 with
        | b1 :: b2 :: b3 :: r3 =>
          ((b0 - 240) * 262144 + (b1 - 128) * 4096 + (b2 - 128) * 64 + (b3 - 128))
            :: utf8_decode fuel' r3
        | _ => []
        end
    end
  end.

Definition u (s : string) : str :=
  let bs := bytes_of s in utf8_decode (length bs) bs.

(** *** [str] methods used by the source *)

Definition str_eqb (a b : str) : bool := bool_decide (a = b).

(** [c in chars] for a one-character [c]. *)
Definition char_in (c : Z) (chars : str) : bool := existsb (Z.eqb c) chars.

(** [s.startswith(pre)] *)
Fixpoint startswith (pre s : str) : bool :=
  match pre, s with
  | [], _ => true
  | _ :: _, [] => false
  | a :: pre', b :: s' => (a =? b) && startswith pre' s'
  end.

(** [s.partition(sep)] when [sep] occurs in [s]: the text before and after
    the first occurrence; [None] when [sep] does not occur. *)
Fixpoint partition (sep s : str) : option (str * str) :=
  if startswith sep s then Some ([], drop (length sep) s)
  else
    match s with
    | [] => None
    | c :: r =>
      match partition sep r with
      | Some (a, b) => Some (c :: a, b)
      | None => None
      end
    end.

(** [sep in s] *)
Definition contains (sep s : str) : bool :=
  match partition sep s with Some _ => true | None => false end.

(** [s.split(sep)] for a non-empty [sep]; every cut consumes at least one
    character, so [length s] cuts are enough. *)
Fixpoint split_fuel (fuel : nat) (sep s : str) : list str :=
  match fuel with
  | O => [s]
  | S fuel' =>
    match partition sep s with
    | Some (a, b) => a :: split_fuel fuel' sep b
    | None => [s]
    end
  end.

Definition split (sep s : str) : list str := split_fuel (length s) sep s.

(** [s.rsplit(sep, 1)]: one cut, at the last occurrence. *)
Definition rsplit1 (sep s : str) : list str :=
  match partition (rev sep) (rev s) with
  | Some (a, b) => [rev b; rev a]
  | None => [s]
  end.

(** [sep.join(parts)] *)
Fixpoint join (sep : str) (parts : list str) : str :=
  match parts with
  | [] => []
  | [p] => p
  | p :: rest => p ++ sep ++ join sep rest
  end.

(** [s.replace(old, new, 1)] *)
Definition replace_first (old new s : str) : str :=
  match partition old s with
  | Some (a, b) => a ++ new ++ b
  | None => s
  end.

(** [s.replace(old, new)] for a non-empty [old] *)
Definition replace_all (old new s : str) : str := join new (split old s).

(** [s.lstrip(chars)], [s.rstrip(chars)] *)
Fixpoint lstrip_by (p : Z -> bool) (s : str) : str :=
  match s with
  | [] => []
  | c :: r => if p c then lstrip_by p r else s
  end.

Definition rstrip_by (p : Z -> bool) (s : str) : str := rev (lstrip_by p (rev s)).

Definition lstrip_chars (chars s : str) : str := lstrip_by (fun c => char_in c chars) s.
Definition rstrip_chars (chars s : str) : str := rstrip_by (fun c => char_in c chars) s.

(** The code points for which [str.isspace] holds. *)
Definition isspace (c : Z) : bool :=
  ((9 <=? c) && (c <=? 13)) || ((28 <=? c) && (c <=? 32))
  || (c =? 133) || (c =? 160) || (c =? 5760)
  || ((8192 <=? c) && (c <=? 8202))
  || (c =? 8232) || (c =? 8233) || (c =? 8239) || (c =? 8287) || (c =? 12288).

(** [s.strip()] *)
Definition strip (s : str) : str := rstrip_by isspace (lstrip_by isspace s).

(** [enumerate(s)] and [range(lo, hi)] *)
Definition enumerate {A : Type} (l : list A) : list (nat * A) :=
  zip (seq 0 (length l)) l.

Definition range (lo hi : nat) : list nat := seq lo (hi - lo).

(** [str(i)] for a non-negative index [i] *)
Fixpoint digits (d : Decimal.uint) : str :=
  match d with
  | Nil => []
  | D0 r => 48 :: digits r
  | D1 r => 49 :: digits r
  | D2 r => 50 :: digits r
  | D3 r => 51 :: digits r
  | D4 r => 52 :: digits r
  | D5 r => 53 :: digits r
  | D6 r => 54 :: digits r
  | D7 r => 55 :: digits r
  | D8 r => 56 :: digits r
  | D9 r => 57 :: digits r
  end.

Definition str_of_nat (i : nat) : str := digits (Nat.to_uint i).

(** [d[key]] / [key in d] for a dict literal, kept in source order. *)
Fixpoint dict_get {V : Type} (d : list (str * V)) (key : str) : option V :=
  match d with
  | [] => None
  | (k, v) :: rest => if str_eqb k key then Some v else dict_get rest key
  end.

(** Case folding of the ASCII range, the part of [str.lower] that does not
    depend on the Unicode tables. *)
Definition ascii_lower_char (c : Z) : Z :=
  if (65 <=? c) && (c <=? 90) then c + 32 else c.

Definition is_ascii_lower (c : Z) : Prop := 97 <= c <= 122.

(** ** The platform

    What the interpreter and the optional third-party packages provide:
    [str.lower] and [str.isalpha] (driven by the Unicode database),
    [tldextract.extract] when [TLDEXTRACT_AVAILABLE], and
    [confusables.is_confusable(c, greedy=True)] when [CONFUSABLES_AVAILABLE],
    reduced to the ['c'] entries of each item's ['homoglyphs'] list. *)
Record Platform : Type := {
  str_lower : str -> str;
  char_isalpha : Z -> bool;
  tldextract_extract : option (str -> str * str);
  confusables_is_confusable : option (Z -> outcome (list (list str)))
}.

(** [str.lower] on the ASCII range and on the two capital letters that
    [HOMOGRAPH_MAPPINGS] offers for a lower-case key, U+042C and U+0500
    (both among the first three look-alikes of [b]). *)
Definition sample_lower_char (c : Z) : Z :=
  if c =? 1068 then 1100
  else if c =? 1280 then 1281
  else ascii_lower_char c.

(** A platform without the optional packages.  Its case rules are those of
    CPython on ASCII strings and on what the techniques make of a
    lower-case ASCII name. *)
Definition ascii_platform : Platform := {|
  str_lower := map sample_lower_char;
  char_isalpha := fun c => ((65 <=? c) && (c <=? 90)) || ((97 <=? c) && (c <=? 122));
  tldextract_extract := None;
  confusables_is_confusable := None
|}.

(** ** Character tables (lines 89-241 of the source) *)

Definition HOMOGRAPH_MAPPINGS : list (str * list str) := Eval vm_compute in
  [
    (* Latin lowercase *)
    (u "a", [u "а"; u "ɑ"; u "α"; u "ạ"; u "ą"; u "à"; u "á"; u "â"; u "ã"; u "ä"; u "å"; u "ā"; u "ă"; u "ǎ"; u "ȁ"; u "ȃ"; u "ả"; u "ấ"; u "ầ"; u "ẩ"; u "ẫ"; u "ậ"; u "ắ"; u "ằ"; u "ẳ"; u "ẵ"; u "ặ"]);
    (u "b", [u "Ь"; u "ƅ"; u "Ԁ"; u "ḃ"; u "ḅ"; u "ḇ"; u "ƀ"]);
    (u "c", [u "с"; u "ϲ"; u "ċ"; u "ç"; u "ć"; u "ĉ"; u "č"; u "ƈ"; u "ȼ"]);
    (u "d", [u "ԁ"; u "ɗ"; u "ḋ"; u "ḍ"; u "ḏ"; u "ḑ"; u "ḓ"; u "ď"; u "đ"]);
    (u "e", [u "е"; u "ё"; u "ẹ"; u "ę"; u "è"; u "é"; u "ê"; u "ë"; u "ē"; u "ĕ"; u "ė"; u "ě"; u "ȅ"; u "ȇ"; u "ẻ"; u "ẽ"; u "ế"; u "ề"; u "ể"; u "ễ"; u "ệ"]);
    (u "f", [u "ƒ"; u "ḟ"]);
    (u "g", [u "ɡ"; u "ġ"; u "ģ"; u "ĝ"; u "ğ"; u "ǧ"; u "ǵ"; u "ḡ"]);
    (u "h", [u "һ"; u "ḣ"; u "ḥ"; u "ḧ"; u "ḩ"; u "ḫ"; u "ĥ"; u "ȟ"; u "ħ"]);
    (u "i", [u "і"; u "ı"; u "ɩ"; u "ì"; u "í"; u "î"; u "ï"; u "ĩ"; u "ī"; u "ĭ"; u "į"; u "ǐ"; u "ȉ"; u "ȋ"; u "ỉ"; u "ị"]);
    (u "j", [u "ј"; u "ĵ"; u "ǰ"]);
    (u "k", [u "κ"; u "ḱ"; u "ḳ"; u "ḵ"; u "ķ"; u "ĸ"]);
    (u "l", [u "ӏ"; u "ḷ"; u "ḹ"; u "ḻ"; u "ḽ"; u "ĺ"; u "ļ"; u "ľ"; u "ŀ"; u "ł"; u "1"; u "|"]);
    (u "m", [u "ṁ"; u "ṃ"; u "ɱ"; u "rn"]);
    (u "n", [u "ո"; u "ṅ"; u "ṇ"; u "ṉ"; u "ṋ"; u "ń"; u "ņ"; u "ň"; u "ŉ"; u "ɲ"; u "ƞ"]);
    (u "o", [u "о"; u "ο"; u "σ"; u "0"; u "ọ"; u "ø"; u "ò"; u "ó"; u "ô"; u "õ"; u "ö"; u "ō"; u "ŏ"; u "ő"; u "ơ"; u "ǒ"; u "ǫ"; u "ǭ"; u "ȍ"; u "ȏ"; u "ȯ"; u "ȱ"; u "ỏ"; u "ố"; u "ồ"; u "ổ"; u "ỗ"; u "ộ"; u "ớ"; u "ờ"; u "ở"; u "ỡ"; u "ợ"]);
    (u "p", [u "р"; u "ρ"; u "ṕ"; u "ṗ"; u "ƥ"]);
    (u "q", [u "ԛ"; u "ɋ"]);
    (u "r", [u "г"; u "ṙ"; u "ṛ"; u "ṝ"; u "ṟ"; u "ŕ"; u "ŗ"; u "ř"; u "ȑ"; u "ȓ"]);
    (u "s", [u "ѕ"; u "ṡ"; u "ṣ"; u "ṥ"; u "ṧ"; u "ṩ"; u "ś"; u "ŝ"; u "ş"; u "š"; u "ș"; u "5"; u "$"]);
    (u "t", [u "τ"; u "ṫ"; u "ṭ"; u "ṯ"; u "ṱ"; u "ţ"; u "ť"; u "ŧ"; u "ț"; u "7"]);
    (u "u", [u "υ"; u "ս"; u "ụ"; u "ù"; u "ú"; u "û"; u "ü"; u "ũ"; u "ū"; u "ŭ"; u "ů"; u "ű"; u "ų"; u "ư"; u "ǔ"; u "ǖ"; u "ǘ"; u "ǚ"; u "ǜ"; u "ȕ"; u "ȗ"; u "ủ"; u "ứ"; u "ừ"; u "ử"; u "ữ"; u "ự"]);
    (u "v", [u "ν"; u "ѵ"; u "ṽ"; u "ṿ"]);
    (u "w", [u "ԝ"; u "ẁ"; u "ẃ"; u "ẅ"; u "ẇ"; u "ẉ"; u "ŵ"; u "vv"]);
    (u "x", [u "х"; u "χ"; u "ẋ"; u "ẍ"]);
    (u "y", [u "у"; u "γ"; u "ỳ"; u "ý"; u "ŷ"; u "ÿ"; u "ỹ"; u "ȳ"; u "ẏ"; u "ỵ"; u "ỷ"]);
    (u "z", [u "ᴢ"; u "ź"; u "ż"; u "ž"; u "ẑ"; u "ẓ"; u "ẕ"; u "ƶ"]);
    (* Latin uppercase (for case variations) *)
    (u "A", [u "А"; u "Α"; u "Ạ"; u "Ą"; u "À"; u "Á"; u "Â"; u "Ã"; u "Ä"; u "Å"; u "Ā"; u "Ă"; u "Ǎ"]);
    (u "B", [u "В"; u "Β"; u "Ḃ"; u "Ḅ"; u "Ḇ"; u "Ɓ"]);
    (u "C", [u "С"; u "Ϲ"; u "Ċ"; u "Ç"; u "Ć"; u "Ĉ"; u "Č"]);
    (u "E", [u "Е"; u "Ε"; u "Ẹ"; u "Ę"; u "È"; u "É"; u "Ê"; u "Ë"; u "Ē"; u "Ĕ"; u "Ė"; u "Ě"]);
    (u "H", [u "Н"; u "Η"; u "Ḣ"; u "Ḥ"; u "Ḧ"; u "Ḩ"; u "Ḫ"; u "Ĥ"]);
    (u "I", [u "І"; u "Ι"; u "Ì"; u "Í"; u "Î"; u "Ï"; u "Ĩ"; u "Ī"; u "Ĭ"; u "İ"; u "Į"; u "1"; u "l"; u "|"]);
    (u "K", [u "Κ"; u "К"; u "Ḱ"; u "Ḳ"; u "Ḵ"; u "Ķ"]);
    (u "M", [u "Μ"; u "М"; u "Ṁ"; u "Ṃ"]);
    (u "N", [u "Ν"; u "Ṅ"; u "Ṇ"; u "Ṉ"; u "Ṋ"; u "Ń"; u "Ņ"; u "Ň"]);
    (u "O", [u "О"; u "Ο"; u "0"; u "Ọ"; u "Ø"; u "Ò"; u "Ó"; u "Ô"; u "Õ"; u "Ö"; u "Ō"; u "Ŏ"; u "Ő"; u "Ơ"]);
    (u "P", [u "Р"; u "Ρ"; u "Ṕ"; u "Ṗ"]);
    (u "S", [u "Ѕ"; u "Ṡ"; u "Ṣ"; u "Ṥ"; u "Ṧ"; u "Ṩ"; u "Ś"; u "Ŝ"; u "Ş"; u "Š"; u "5"; u "$"]);
    (u "T", [u "Τ"; u "Т"; u "Ṫ"; u "Ṭ"; u "Ṯ"; u "Ṱ"; u "Ţ"; u "Ť"; u "Ŧ"; u "7"]);
    (u "X", [u "Χ"; u "Х"; u "Ẋ"; u "Ẍ"]);
    (u "Y", [u "Υ"; u "У"; u "Ỳ"; u "Ý"; u "Ŷ"; u "Ÿ"; u "Ỹ"; u "Ȳ"; u "Ẏ"]);
    (u "Z", [u "Ζ"; u "Ź"; u "Ż"; u "Ž"; u "Ẑ"; u "Ẓ"; u "Ẕ"])
  ].

Definition LEETSPEAK_MAPPINGS : list (str * list str) := Eval vm_compute in
  [
    (u "a", [u "4"; u "@"]);
    (u "b", [u "8"]);
    (u "e", [u "3"]);
    (u "g", [u "9"; u "6"]);
    (u "i", [u "1"; u "!"; u "|"]);
    (u "l", [u "1"; u "|"]);
    (u "o", [u "0"]);
    (u "s", [u "5"; u "$"]);
    (u "t", [u "7"; u "+"]);
    (u "z", [u "2"])
  ].

Definition KEYBOARD_TYPOS : list (str * list str) := Eval vm_compute in
  [
    (u "a", [u "q"; u "w"; u "s"; u "z"]);
    (u "b", [u "v"; u "g"; u "h"; u "n"]);
    (u "c", [u "x"; u "d"; u "f"; u "v"]);
    (u "d", [u "s"; u "e"; u "r"; u "f"; u "c"; u "x"]);
    (u "e", [u "w"; u "s"; u "d"; u "r"]);
    (u "f", [u "d"; u "r"; u "t"; u "g"; u "v"; u "c"]);
    (u "g", [u "f"; u "t"; u "y"; u "h"; u "b"; u "v"]);
    (u "h", [u "g"; u "y"; u "u"; u "j"; u "n"; u "b"]);
    (u "i", [u "u"; u "j"; u "k"; u "o"]);
    (u "j", [u "h"; u "u"; u "i"; u "k"; u "m"; u "n"]);
    (u "k", [u "j"; u "i"; u "o"; u "l"; u "m"]);
    (u "l", [u "k"; u "o"; u "p"]);
    (u "m", [u "n"; u "j"; u "k"]);
    (u "n", [u "b"; u "h"; u "j"; u "m"]);
    (u "o", [u "i"; u "k"; u "l"; u "p"]);
    (u "p", [u "o"; u "l"]);
    (u "q", [u "w"; u "a"]);
    (u "r", [u "e"; u "d"; u "f"; u "t"]);
    (u "s", [u "a"; u "w"; u "e"; u "d"; u "x"; u "z"]);
    (u "t", [u "r"; u "f"; u "g"; u "y"]);
    (u "u", [u "y"; u "h"; u "j"; u "i"]);
    (u "v", [u "c"; u "f"; u "g"; u "b"]);
    (u "w", [u "q"; u "a"; u "s"; u "e"]);
    (u "x", [u "z"; u "s"; u "d"; u "c"]);
    (u "y", [u "t"; u "g"; u "h"; u "u"]);
    (u "z", [u "a"; u "s"; u "x"])
  ].

Definition PHONETIC_SUBSTITUTIONS : list (str * list str) := Eval vm_compute in
  [
    (u "f", [u "ph"]);
    (u "ph", [u "f"]);
    (u "ck", [u "k"; u "c"]);
    (u "k", [u "c"; u "ck"]);
    (u "c", [u "k"; u "s"]);
    (u "s", [u "c"; u "z"]);
    (u "z", [u "s"]);
    (u "x", [u "ks"; u "cks"]);
    (u "w", [u "vv"; u "uu"]);
    (u "i", [u "y"; u "ee"]);
    (u "y", [u "i"; u "ie"]);
    (u "oo", [u "u"]);
    (u "u", [u "oo"])
  ].

Definition ALTERNATIVE_TLDS : list str := Eval vm_compute in
  [
    (* Generic TLDs *)
    u "com"; u "net"; u "org"; u "info"; u "biz"; u "co"; u "io"; u "app"; u "dev"; u "ai";
    u "xyz"; u "online"; u "site"; u "website"; u "tech"; u "store"; u "shop"; u "club";
    (* Country TLDs commonly used *)
    u "uk"; u "us"; u "de"; u "fr"; u "it"; u "es"; u "nl"; u "ru"; u "cn"; u "jp"; u "kr";
    u "in"; u "au"; u "ca"; u "br"; u "mx"; u "pl"; u "cz"; u "ch"; u "at"; u "be"; u "se";
    (* Combo TLDs *)
    u "co.uk"; u "com.au"; u "co.in"; u "co.jp"; u "com.br"; u "co.nz"; u "com.mx";
    (* New gTLDs often used in phishing *)
    u "top"; u "work"; u "click"; u "link"; u "live"; u "world"; u "today"; u "email";
    u "best"; u "win"; u "vip"; u "ltd"; u "group"; u "company"; u "solutions"
  ].

Definition PHISHING_PREFIXES : list str := Eval vm_compute in
  [
    u "www-"; u "www."; u "login-"; u "signin-"; u "secure-"; u "account-"; u "my-";
    u "portal-"; u "support-"; u "help-"; u "auth-"; u "verify-"; u "update-";
    u "service-"; u "online-"; u "web-"; u "mobile-"; u "app-"; u "mail-"; u "admin-"
  ].

Definition PHISHING_SUFFIXES : list str := Eval vm_compute in
  [
    u "-login"; u "-signin"; u "-secure"; u "-account"; u "-portal"; u "-support";
    u "-help"; u "-auth"; u "-verify"; u "-update"; u "-service"; u "-online";
    u "-web"; u "-mobile"; u "-app"; u "-mail"; u "-admin"; u "-official"; u "-real";
    u "-security"; u "-center"; u "-team"; u "-group"; u "-inc"; u "-corp"; u "-ltd"
  ].

(** ** Data classes *)

(** A naive [datetime], in microseconds from a fixed origin. *)
Abbreviation datetime := Z.

(** The [creation_date] a WHOIS answer carries: [None], a naive
    [datetime], a timezone-aware [datetime] (its local time and its offset
    from UTC), or any other value, of which the code only observes its
    truth value and whether [datetime.strptime(str(v), '%Y-%m-%d')] parses
    it. *)
Inductive pyvalue : Type :=
| PyNone
| PyDatetime (t : datetime)
| PyAwareDatetime (t : datetime) (utcoffset : Z)
| PyOther (truthy : bool) (parsed : option datetime).

(** [isinstance(v, datetime)] *)
Definition isinstance_datetime (v : pyvalue) : bool :=
  match v with
  | PyDatetime _ | PyAwareDatetime _ _ => true
  | _ => false
  end.

Record DomainVariant : Type := {
  original_domain : str;
  variant_domain : str;
  technique : str;
  technique_detail : str;
  is_registered : bool;
  dns_records : list (str * list str);
  whois_data : list (str * str);
  creation_date : pyvalue;
  registrar : option str;
  domain_age_days : option Z;
  trust_level : str;
  risk_score : Z;
  error : option str
}.

(** [DomainVariant(original_domain=..., variant_domain=..., technique=...,
    technique_detail=...)] with the dataclass defaults. *)
Definition new_DomainVariant (original variant tech detail : str) : DomainVariant := {|
  original_domain := original;
  variant_domain := variant;
  technique := tech;
  technique_detail := detail;
  is_registered := false;
  dns_records := [];
  whois_data := [];
  creation_date := PyNone;
  registrar := None;
  domain_age_days := None;
  trust_level := u "unknown";
  risk_score := 0;
  error := None
|}.

Record AnalysisConfig : Type := {
  target_domain : str;
  trust_threshold_days : Z;
  max_variants : Z;
  check_dns : bool;
  check_whois : bool;
  threads : Z;
  timeout : Z;
  include_unregistered : bool;
  techniques : list str;
  output_format : str;
  output_file : option str;
  verbose : bool
}.

(** [AnalysisConfig(target_domain=...)] with the dataclass defaults. *)
Definition default_config (target : str) : AnalysisConfig := {|
  target_domain := target;
  trust_threshold_days := 730;
  max_variants := 1000;
  check_dns := true;
  check_whois := true;
  threads := 10;
  timeout := 5;
  include_unregistered := false;
  techniques := [u "all"];
  output_format := u "console";
  output_file := None;
  verbose := false
|}.

(** ** HomographGenerator *)

(** The generator object: [config], the parsed target and the set of
    domains emitted so far.  Only [generated_variants] is ever reassigned. *)
Record HomographGenerator : Type := {
  config : AnalysisConfig;
  domain_name : str;
  tld : str;
  generated_variants : gset str
}.

Section Generator.
Variable P : Platform.

(** The normalisation at the head of [_parse_domain]: lower-case and
    strip, drop the scheme, the path and a leading [www.]. *)
Definition strip_target (domain : str) : str :=
  let domain := strip (str_lower P domain) in
  let domain :=
    if contains (u "://") domain then nth 1 (split (u "://") domain) [] else domain in
  let domain :=
    if contains (u "/") domain then nth 0 (split (u "/") domain) [] else domain in
  if startswith (u "www.") domain then drop 4 domain else domain.

Definition _parse_domain (domain : str) : str * str :=
  let domain := strip_target domain in
  match tldextract_extract P with
  | Some extract => extract domain
  | None =>
    match rsplit1 (u ".") domain with
    | [name; suffix] => (name, suffix)
    | _ => (domain, u "com")
    end
  end.

(** [HomographGenerator(config)] *)
Definition new_HomographGenerator (cfg : AnalysisConfig) : HomographGenerator :=
  let '(name, suffix) := _parse_domain (target_domain cfg) in
  {| config := cfg; domain_name := name; tld := suffix; generated_variants := ∅ |}.

Definition original_of (self : HomographGenerator) : str :=
  domain_name self ++ u "." ++ tld self.

Definition remember (self : HomographGenerator) (full_domain : str) : HomographGenerator :=
  {| config := config self;
     domain_name := domain_name self;
     tld := tld self;
     generated_variants := generated_variants self ∪ {[ full_domain ]} |}.

Definition _add_variant (self : HomographGenerator) (name suffix tech detail : str)
  : option DomainVariant * HomographGenerator :=
  let name := strip (str_lower P name) in
  let suffix := strip (str_lower P suffix) in
  if str_eqb name [] || str_eqb suffix [] then (None, self)
  else
    let full_domain := name ++ u "." ++ suffix in
    if str_eqb full_domain (original_of self) then (None, self)
    else if bool_decide (full_domain ∈ generated_variants self) then (None, self)
    else if Z.of_nat (size (generated_variants self)) >=? max_variants (config self)
    then (None, self)
    else
      (Some (new_DomainVariant (original_of self) full_domain tech detail),
       remember self full_domain).

(** One call of [_add_variant] as a technique's loop body makes it. *)
Record call : Type := {
  call_name : str;
  call_tld : str;
  call_technique : str;
  call_detail : str
}.

(** The body shared by every loop of every technique:
    [variant = self._add_variant(...)], then [variants.append(variant)]
    when it is not [None].  The calls a technique makes depend on the
    parsed target only, so a technique is the list of its calls, in loop
    order, run against the generator. *)
Fixpoint run_calls (self : HomographGenerator) (calls : list call)
  : list DomainVariant * HomographGenerator :=
  match calls with
  | [] => ([], self)
  | c :: rest =>
    let '(variant, self1) :=
      _add_variant self (call_name c) (call_tld c) (call_technique c) (call_detail c) in
    let '(variants, self2) := run_calls self1 rest in
    (match variant with Some v => v :: variants | None => variants end, self2)
  end.

(** [name[:i] + replacement + name[i+1:]] *)
Definition substitute (name : str) (i : nat) (replacement : str) : str :=
  take i name ++ replacement ++ drop (i + 1) name.

Definition mk_call (name suffix tech detail : str) : call :=
  {| call_name := name; call_tld := suffix; call_technique := tech; call_detail := detail |}.

(** [name[i]] as a one-character string, for an index in range. *)
Definition char_at (name : str) (i : nat) : Z := nth i name 0.

(** The second loop of [_generate_homograph]: an exception of the
    confusables package ends the loop, the variants found so far stay. *)
Fixpoint confusable_calls (is_confusable : Z -> outcome (list (list str)))
    (name suffix : str) (positions : list (nat * Z)) : list call :=
  match positions with
  | [] => []
  | (i, char) :: rest =>
    match is_confusable char with
    | Raised _ => []
    | Returned conf =>
      flat_map (fun item =>
        flat_map (fun repl =>
          if negb (str_eqb repl []) && negb (str_eqb repl [char])
          then [mk_call (substitute name i repl) suffix (u "homograph")
                  (u "Confusable: '" ++ [char] ++ u "' -> '" ++ repl ++ u "'")]
          else [])
          (take 2 item))
        (take 2 conf)
      ++ confusable_calls is_confusable name suffix rest
    end
  end.

Definition homograph_calls (name suffix : str) : list call :=
  flat_map (fun '(i, char) =>
    match dict_get HOMOGRAPH_MAPPINGS [char] with
    | Some replacements =>
      map (fun replacement =>
             mk_call (substitute name i replacement) suffix (u "homograph")
               (u "Replaced '" ++ [char] ++ u "' with '" ++ replacement ++ u "'"))
          (take 3 replacements)
    | None => []
    end) (enumerate name)
  ++ match confusables_is_confusable P with
     | Some is_confusable => confusable_calls is_confusable name suffix (enumerate name)
     | None => []
     end.

Definition leetspeak_calls (name suffix : str) : list call :=
  flat_map (fun '(i, char) =>
    match dict_get LEETSPEAK_MAPPINGS [char] with
    | Some replacements =>
      map (fun replacement =>
             mk_call (substitute name i replacement) suffix (u "leetspeak")
               (u "Replaced '" ++ [char] ++ u "' with '" ++ replacement ++ u "'"))
          replacements
    | None => []
    end) (enumerate name).

Definition typo_calls (name suffix : str) : list call :=
  flat_map (fun '(i, char) =>
    match dict_get KEYBOARD_TYPOS [char] with
    | Some replacements =>
      map (fun replacement =>
             mk_call (substitute name i replacement) suffix (u "typo")
               (u "Keyboard typo: '" ++ [char] ++ u "' -> '" ++ replacement ++ u "'"))
          (take 2 replacements)
    | None => []
    end) (enumerate name).

Definition phonetic_calls (name suffix : str) : list call :=
  flat_map (fun '(pattern, replacements) =>
    if contains pattern name then
      map (fun replacement =>
             mk_call (replace_first pattern replacement name) suffix (u "phonetic")
               (u "Phonetic: '" ++ pattern ++ u "' -> '" ++ replacement ++ u "'"))
          replacements
    else []) PHONETIC_SUBSTITUTIONS.

Definition repetition_calls (name suffix : str) : list call :=
  flat_map (fun '(i, char) =>
    if char_isalpha P char then
      [mk_call (take i name ++ [char] ++ [char] ++ drop (i + 1) name) suffix
         (u "repetition")
         (u "Doubled '" ++ [char] ++ u "' at position " ++ str_of_nat i)]
    else []) (enumerate name).

Definition omission_calls (name suffix : str) : list call :=
  flat_map (fun i =>
    let new_name := take i name ++ drop (i + 1) name in
    if negb (str_eqb new_name []) then
      [mk_call new_name suffix (u "omission")
         (u "Omitted '" ++ [char_at name i] ++ u "' at position " ++ str_of_nat i)]
    else []) (range 0 (length name)).

Definition insertion_calls (name suffix : str) : list call :=
  let common_chars := u "aeiourstnl" in
  flat_map (fun i =>
    map (fun char =>
           mk_call (take i name ++ [char] ++ drop i name) suffix (u "insertion")
             (u "Inserted '" ++ [char] ++ u "' at position " ++ str_of_nat i))
        common_chars) (range 0 (length name + 1)).

Definition transposition_calls (name suffix : str) : list call :=
  map (fun i =>
    mk_call (take i name ++ [char_at name (i + 1)] ++ [char_at name i] ++ drop (i + 2) name)
      suffix (u "transposition")
      (u "Swapped '" ++ [char_at name i] ++ u "' and '" ++ [char_at name (i + 1)] ++ u "'"))
    (range 0 (length name - 1)).

Definition hyphenation_calls (name suffix : str) : list call :=
  map (fun i =>
    mk_call (take i name ++ u "-" ++ drop i name) suffix (u "hyphenation")
      (u "Hyphen inserted at position " ++ str_of_nat i))
    (range 1 (length name))
  ++ (if contains (u "-") name
      then [mk_call (replace_all (u "-") [] name) suffix (u "hyphenation")
              (u "Removed hyphens")]
      else []).

Definition tld_calls (name suffix : str) : list call :=
  flat_map (fun alt =>
    if negb (str_eqb alt suffix) then
      [mk_call name alt (u "tld_swap")
         (u "Changed TLD from '." ++ suffix ++ u "' to '." ++ alt ++ u "'")]
    else []) ALTERNATIVE_TLDS.

Definition prefix_calls (name suffix : str) : list call :=
  map (fun prefix =>
    let clean_prefix := rstrip_chars (u "-.") prefix in
    mk_call (clean_prefix ++ name) suffix (u "prefix")
      (u "Added prefix '" ++ prefix ++ u "'")) PHISHING_PREFIXES.

Definition suffix_calls (name suffix : str) : list call :=
  map (fun sfx =>
    let clean_suffix := lstrip_chars (u "-") sfx in
    mk_call (name ++ clean_suffix) suffix (u "suffix")
      (u "Added suffix '" ++ sfx ++ u "'")) PHISHING_SUFFIXES.

Definition vowel_swap_calls (name suffix : str) : list call :=
  let vowels := u "aeiou" in
  flat_map (fun '(i, char) =>
    if char_in char vowels then
      flat_map (fun vowel =>
        if negb (vowel =? char) then
          [mk_call (substitute name i [vowel]) suffix (u "vowel_swap")
             (u "Swapped '" ++ [char] ++ u "' with '" ++ [vowel] ++ u "'")]
        else []) vowels
    else []) (enumerate name).

(** The [while] loop advances [i] by one on every turn, up to
    [len(name) - 1]. *)
Definition double_char_calls (name suffix : str) : list call :=
  flat_map (fun i =>
    if char_at name i =? char_at name (i + 1) then
      [mk_call (take i name ++ drop (i + 1) name) suffix (u "double_char")
         (u "Reduced double '" ++ [char_at name i] ++ u "'")]
    else []) (range 0 (length name - 1)).

Definition bit_flip (ascii_val : Z) (bit : nat) : Z :=
  Z.lxor ascii_val (Z.shiftl 1 (Z.of_nat bit)).

Definition bitsquatting_calls (name suffix : str) : list call :=
  flat_map (fun '(i, char) =>
    let ascii_val := char in
    flat_map (fun bit =>
      let flipped := bit_flip ascii_val bit in
      if (97 <=? flipped) && (flipped <=? 122) then
        let new_char := flipped in
        if negb (new_char =? char) then
          [mk_call (substitute name i [new_char]) suffix (u "bitsquatting")
             (u "Bit flip: '" ++ [char] ++ u "' -> '" ++ [new_char] ++ u "'")]
        else []
      else []) (range 0 8)) (enumerate name).

Definition subdomain_calls (name suffix : str) : list call :=
  let subdomains :=
    [u "login"; u "secure"; u "account"; u "auth"; u "my"; u "portal"] in
  map (fun sub =>
    mk_call (name ++ u "." ++ sub) (u "com") (u "subdomain")
      (u "Domain as subdomain: " ++ sub ++ u ".com")) subdomains.

Definition technique_method : Type :=
  HomographGenerator -> list DomainVariant * HomographGenerator.

Definition run_technique (calls : str -> str -> list call) : technique_method :=
  fun self => run_calls self (calls (domain_name self) (tld self)).

Definition _generate_homograph : technique_method := run_technique homograph_calls.
Definition _generate_leetspeak : technique_method := run_technique leetspeak_calls.
Definition _generate_typo : technique_method := run_technique typo_calls.
Definition _generate_phonetic : technique_method := run_technique phonetic_calls.
Definition _generate_repetition : technique_method := run_technique repetition_calls.
Definition _generate_omission : technique_method := run_technique omission_calls.
Definition _generate_insertion : technique_method := run_technique insertion_calls.
Definition _generate_transposition : technique_method := run_technique transposition_calls.
Definition _generate_hyphenation : technique_method := run_technique hyphenation_calls.
Definition _generate_tld : technique_method := run_technique tld_calls.
Definition _generate_prefix : technique_method := run_technique prefix_calls.
Definition _generate_suffix : technique_method := run_technique suffix_calls.
Definition _generate_vowel_swap : technique_method := run_technique vowel_swap_calls.
Definition _generate_double_char : technique_method := run_technique double_char_calls.
Definition _generate_bitsquatting : technique_method := run_technique bitsquatting_calls.
Definition _generate_subdomain : technique_method := run_technique subdomain_calls.

(** The methods [getattr(self, f'_generate_{technique}', None)] can find,
    in the order of the ['all'] list of [generate_all]. *)
Definition generate_methods : list (str * technique_method) :=
  [ (u "homograph", _generate_homograph);
    (u "leetspeak", _generate_leetspeak);
    (u "typo", _generate_typo);
    (u "phonetic", _generate_phonetic);
    (u "repetition", _generate_repetition);
    (u "omission", _generate_omission);
    (u "insertion", _generate_insertion);
    (u "transposition", _generate_transposition);
    (u "hyphenation", _generate_hyphenation);
    (u "tld", _generate_tld);
    (u "prefix", _generate_prefix);
    (u "suffix", _generate_suffix);
    (u "vowel_swap", _generate_vowel_swap);
    (u "double_char", _generate_double_char);
    (u "bitsquatting", _generate_bitsquatting);
    (u "subdomain", _generate_subdomain) ].

Definition all_techniques : list str := map fst generate_methods.

(** The [for technique in techniques] loop of [generate_all].  No method
    raises (the only foreign call, into the confusables package, is guarded
    inside [_generate_homograph]), so the [except] branch is never taken. *)
Fixpoint run_techniques (self : HomographGenerator) (techs : list str)
  : list DomainVariant * HomographGenerator :=
  match techs with
  | [] => ([], self)
  | technique :: rest =>
    match dict_get generate_methods technique with
    | Some method =>
      let '(results, self1) := method self in
      let '(variants, self2) := run_techniques self1 rest in
      (results ++ variants, self2)
    | None => run_techniques self rest
    end
  end.

Definition generate_all (self : HomographGenerator)
  : list DomainVariant * HomographGenerator :=
  let techs := techniques (config self) in
  let techs := if existsb (str_eqb (u "all")) techs then all_techniques else techs in
  run_techniques self techs.

End Generator.

(** ** DomainAnalyzer *)

(** The calls that leave the process, as the analyzer makes them. *)
Inductive event : Type :=
| DnsQuery (domain rtype : str)
| HostLookup (domain : str)
| WhoisQuery (domain : str)
| ClockRead.

(** The [creation_date] attribute of a WHOIS answer: a list or a single
    value ([isinstance(cd, list)]). *)
Inductive creation_field : Type :=
| Single (v : pyvalue)
| Listed (l : list pyvalue).

(** A WHOIS answer [w]: the items of [dict(w)] (values shown by [str]),
    [w.creation_date] and [w.registrar]. *)
Record whois_entry : Type := {
  entry_items : list (str * str);
  entry_creation_date : creation_field;
  entry_registrar : option str
}.

(** The network and the clock: [DNS_AVAILABLE] with
    [dns.resolver.Resolver.resolve], [socket.gethostbyname],
    [WHOIS_AVAILABLE] with [whois.whois], and [datetime.now()]. *)
Record Network : Type := {
  dns_available : bool;
  dns_resolve : str -> str -> outcome (list str);
  socket_gethostbyname : str -> outcome str;
  whois_available : bool;
  whois_whois : str -> outcome whois_entry;
  datetime_now : datetime
}.

(** A computation together with the log of the outside calls it made. *)
Definition io (A : Type) : Type := A * list event.

Definition io_ret {A : Type} (a : A) : io A := (a, []).

Definition io_bind {A B : Type} (m : io A) (k : A -> io B) : io B :=
  let '(a, log1) := m in
  let '(b, log2) := k a in
  (b, log1 ++ log2).

Definition io_call {A : Type} (e : event) (a : A) : io A := (a, [e]).

Notation "'let*' x ':=' m 'in' k" := (io_bind m (fun x => k))
  (at level 10, x name, m at level 100, k at level 200).

Definition set_dns (variant : DomainVariant) (registered : bool)
    (records : list (str * list str)) : DomainVariant :=
  {| original_domain := original_domain variant;
     variant_domain := variant_domain variant;
     technique := technique variant;
     technique_detail := technique_detail variant;
     is_registered := registered;
     dns_records := records;
     whois_data := whois_data variant;
     creation_date := creation_date variant;
     registrar := registrar variant;
     domain_age_days := domain_age_days variant;
     trust_level := trust_level variant;
     risk_score := risk_score variant;
     error := error variant |}.

Definition set_whois (variant : DomainVariant) (cd : pyvalue) (reg : option str)
    (data : list (str * str)) : DomainVariant :=
  {| original_domain := original_domain variant;
     variant_domain := variant_domain variant;
     technique := technique variant;
     technique_detail := technique_detail variant;
     is_registered := is_registered variant;
     dns_records := dns_records variant;
     whois_data := data;
     creation_date := cd;
     registrar := reg;
     domain_age_days := domain_age_days variant;
     trust_level := trust_level variant;
     risk_score := risk_score variant;
     error := error variant |}.

Definition set_age (variant : DomainVariant) (days : Z) : DomainVariant :=
  {| original_domain := original_domain variant;
     variant_domain := variant_domain variant;
     technique := technique variant;
     technique_detail := technique_detail variant;
     is_registered := is_registered variant;
     dns_records := dns_records variant;
     whois_data := whois_data variant;
     creation_date := creation_date variant;
     registrar := registrar variant;
     domain_age_days := Some days;
     trust_level := trust_level variant;
     risk_score := risk_score variant;
     error := error variant |}.

Definition set_trust (variant : DomainVariant) (level : str * Z) : DomainVariant :=
  {| original_domain := original_domain variant;
     variant_domain := variant_domain variant;
     technique := technique variant;
     technique_detail := technique_detail variant;
     is_registered := is_registered variant;
     dns_records := dns_records variant;
     whois_data := whois_data variant;
     creation_date := creation_date variant;
     registrar := registrar variant;
     domain_age_days := domain_age_days variant;
     trust_level := fst level;
     risk_score := snd level;
     error := error variant |}.

Definition set_error (variant : DomainVariant) (msg : str) : DomainVariant :=
  {| original_domain := original_domain variant;
     variant_domain := variant_domain variant;
     technique := technique variant;
     technique_detail := technique_detail variant;
     is_registered := is_registered variant;
     dns_records := dns_records variant;
     whois_data := whois_data variant;
     creation_date := creation_date variant;
     registrar := registrar variant;
     domain_age_days := domain_age_days variant;
     trust_level := trust_level variant;
     risk_score := risk_score variant;
     error := Some msg |}.

(** [timedelta.days] of a difference given in microseconds: timedelta
    normalises so that the seconds and microseconds are non-negative. *)
Definition microseconds_per_day : Z := 86400000000.

Definition timedelta_days (delta : Z) : Z := delta / microseconds_per_day.

(** Truth value of what [get_whois] hands back as [creation_date]. *)
Definition truthy (v : pyvalue) : bool :=
  match v with
  | PyNone => false
  | PyDatetime _ => true
  | PyAwareDatetime _ _ => true
  | PyOther b _ => b
  end.

(** [now - creation_date] for the naive [now] of [datetime.now()]: the
    difference in microseconds, or the [TypeError] of mixing a naive with
    an aware [datetime]. *)
Definition datetime_sub (now : datetime) (creation_date : pyvalue) : outcome Z :=
  match creation_date with
  | PyDatetime t => Returned (now - t)
  | PyAwareDatetime _ _ =>
    Raised (u "can't subtract offset-naive and offset-aware datetimes")
  | _ => Raised (u "unsupported operand type(s) for -")
  end.

(** [socket.setdefaulttimeout(timeout)] for an integer: a negative value is
    a [ValueError], one beyond the range of the interpreter's clock type
    (64-bit nanoseconds) an [OverflowError]. *)
Definition socket_setdefaulttimeout (timeout : Z) : outcome unit :=
  if timeout <? 0 then Raised (u "Timeout value out of range")
  else if 9223372036 <? timeout
  then Raised (u "timestamp too large to convert to C _PyTime_t")
  else Returned tt.

Section Analyzer.
Variable N : Network.
Variable cfg : AnalysisConfig.

(** The resolver loop of [check_dns]: an answer stores the record texts
    and marks the domain registered, any exception is passed over. *)
Fixpoint resolve_records (domain : str) (record_types : list str)
    (is_reg : bool) (records : list (str * list str))
  : io (bool * list (str * list str)) :=
  match record_types with
  | [] => io_ret (is_reg, records)
  | record_type :: rest =>
    let* answers :=
      io_call (DnsQuery domain record_type) (dns_resolve N domain record_type) in
    match answers with
    | Returned texts => resolve_records domain rest true (records ++ [(record_type, texts)])
    | Raised _ => resolve_records domain rest is_reg records
    end
  end.

(** [DomainAnalyzer.check_dns]; the name [check_dns] is taken by the
    configuration flag. *)
Definition check_dns_lookup (domain : str) : io (bool * list (str * list str)) :=
  if dns_available N then
    resolve_records domain [u "A"; u "AAAA"; u "MX"; u "NS"] false []
  else
    match socket_setdefaulttimeout (timeout cfg) with
    | Raised _ => io_ret (false, [])
    | Returned _ =>
      let* result := io_call (HostLookup domain) (socket_gethostbyname N domain) in
      match result with
      | Returned address => io_ret (true, [(u "A", [address])])
      | Raised _ => io_ret (false, [])
      end
    end.

Definition get_whois (domain : str) : io (pyvalue * option str * list (str * str)) :=
  if negb (whois_available N) then io_ret (PyNone, None, [])
  else
    let* answer := io_call (WhoisQuery domain) (whois_whois N domain) in
    match answer with
    | Raised _ => io_ret (PyNone, None, [])
    | Returned w =>
      let whois_data := entry_items w in
      let cd :=
        match entry_creation_date w with
        | Listed l => match l with first :: _ => first | [] => PyNone end
        | Single v => v
        end in
      let cd :=
        match cd with
        | PyOther true parsed =>
          match parsed with Some t => PyDatetime t | None => PyNone end
        | _ => cd
        end in
      io_ret (cd, entry_registrar w, whois_data)
    end.

Definition calculate_trust_level (age : option Z) : str * Z :=
  match age with
  | None => (u "unknown", 50)
  | Some days =>
    let threshold := trust_threshold_days cfg in
    if days <? 30 then (u "critical", 95)
    else if days <? 90 then (u "high_risk", 85)
    else if days <? 180 then (u "suspicious", 70)
    else if days <? 365 then (u "low_trust", 55)
    else if days <? threshold then (u "moderate", 35)
    else (u "established", 15)
  end.

Definition whois_keys : list str :=
  [u "domain_name"; u "registrar"; u "creation_date";
   u "expiration_date"; u "name_servers"; u "org"; u "country"].

(** The body of the [try] of [analyze_variant]: the variant as far as it
    was updated, and the exception that ended the body, if any. *)
Definition analyze_body (variant : DomainVariant) : io (DomainVariant * option str) :=
  let* variant := (if check_dns cfg then
                let* r := check_dns_lookup (variant_domain variant) in
                io_ret (set_dns variant (fst r) (snd r))
              else io_ret variant) in
  if is_registered variant && check_whois cfg then
    let* r := get_whois (variant_domain variant) in
    let '(cd, reg, data) := r in
    let variant :=
      set_whois variant cd reg
        (filter (fun kv => bool_decide (fst kv ∈ whois_keys)) data) in
    let* aged := (if truthy cd then
               let* now := io_call ClockRead (datetime_now N) in
               match datetime_sub now cd with
               | Returned age_delta => io_ret (set_age variant (timedelta_days age_delta), None)
               | Raised exn => io_ret (variant, Some exn)
               end
             else io_ret (variant, None)) in
    match aged with
    | (variant, Some exn) => io_ret (variant, Some exn)
    | (variant, None) =>
      io_ret (set_trust variant (calculate_trust_level (domain_age_days variant)), None)
    end
  else if is_registered variant then
    io_ret (set_trust variant (u "unknown", 50), None)
  else
    io_ret (set_trust variant (u "unregistered", 0), None).

Definition analyze_variant (variant : DomainVariant) : io DomainVariant :=
  let* r := analyze_body variant in
  match r with
  | (variant, Some exn) => io_ret (set_error variant exn)
  | (variant, None) => io_ret variant
  end.

End Analyzer.

(** ** Ordering of the results *)

(** Python compares strings code point by code point. *)
Fixpoint str_leb (a b : str) : bool :=
  match a, b with
  | [], _ => true
  | _ :: _, [] => false
  | x :: a', y :: b' => (x <? y) || ((x =? y) && str_leb a' b')
  end.

(** [results.sort(key=lambda x: x.risk_score, reverse=True)].  [list.sort]
    is stable, and stays so under [reverse=True]: the result is the one
    arrangement by falling key in which records of equal key keep their
    order.  Inserting from the right, ahead of the first record whose key
    is not larger, builds that arrangement. *)
Fixpoint insert_by_risk (x : DomainVariant) (sorted : list DomainVariant)
  : list DomainVariant :=
  match sorted with
  | [] => [x]
  | y :: rest =>
    if risk_score y <=? risk_score x then x :: y :: rest
    else y :: insert_by_risk x rest
  end.

Definition sort_by_risk (results : list DomainVariant) : list DomainVariant :=
  foldr insert_by_risk [] results.

(** The list [main] hands to the writers (lines 1209-1210). *)
Definition final_results (results : list DomainVariant) : list DomainVariant :=
  sort_by_risk results.

(** The list [format_console] hands to its two renderers (lines 903-908). *)
Definition format_console_results (results : list DomainVariant) (cfg : AnalysisConfig)
  : list DomainVariant :=
  let results :=
    if negb (include_unregistered cfg) then filter (fun r => is_registered r = true) results
    else results in
  sort_by_risk results.

(** The rows either renderer prints, [results[:50]] (lines 959 and 1002),
    and the number the rich renderer reports as left out (lines 974-975). *)
Definition console_rows (results : list DomainVariant) (cfg : AnalysisConfig)
  : list DomainVariant :=
  take 50 (format_console_results results cfg).

Definition console_rows_left_out (results : list DomainVariant) (cfg : AnalysisConfig) : nat :=
  length (format_console_results results cfg) - 50.

(** *** Statements about the generator *)

(** The domain a call asks [_add_variant] to emit, after its clean-up. *)
Definition full_domain_of (P : Platform) (name suffix : str) : str :=
  strip (str_lower P name) ++ u "." ++ strip (str_lower P suffix).

(** What one stretch of generation does to the generator: it started in
    [self], returned [vs] and ended in [self']. *)
Record emission (self : HomographGenerator) (vs : list DomainVariant)
    (self' : HomographGenerator) : Prop := {
  em_config : config self' = config self;
  em_name : domain_name self' = domain_name self;
  em_tld : tld self' = tld self;
  em_set : generated_variants self' =
           generated_variants self ∪ list_to_set (map variant_domain vs);
  em_nodup : NoDup (map variant_domain vs);
  em_fresh : Forall (fun v => variant_domain v ∉ generated_variants self) vs;
  em_other : Forall (fun v => variant_domain v ≠ domain_name self ++ u "." ++ tld self) vs;
  em_cap : Z.of_nat (size (generated_variants self')) <=
           Z.max (Z.of_nat (size (generated_variants self))) (max_variants (config self))
}.

(** Every call of a technique carries that technique's tag. *)
Definition tagged (tag : str) (calls : str -> str -> list call) : Prop :=
  forall name suffix, Forall (fun c => call_technique c = tag) (calls name suffix).

(** The sixteen technique tags of the specification. *)
Definition spec_tags : list str :=
  [u "homograph"; u "leetspeak"; u "typo"; u "phonetic"; u "repetition";
   u "omission"; u "insertion"; u "transposition"; u "hyphenation"; u "tld";
   u "prefix"; u "suffix"; u "vowel_swap"; u "double_char"; u "bitsquatting";
   u "subdomain"].

(** The tags the sixteen methods write into their variants. *)
Definition emitted_tags : list str :=
  [u "homograph"; u "leetspeak"; u "typo"; u "phonetic"; u "repetition";
   u "omission"; u "insertion"; u "transposition"; u "hyphenation"; u "tld_swap";
   u "prefix"; u "suffix"; u "vowel_swap"; u "double_char"; u "bitsquatting";
   u "subdomain"].

(** [AnalysisConfig] as the command line builds it. *)
Definition cli_config (target : str) (threshold cap : Z) (techs : list str) : AnalysisConfig := {|
  target_domain := target;
  trust_threshold_days := threshold;
  max_variants := cap;
  check_dns := true;
  check_whois := true;
  threads := 10;
  timeout := 5;
  include_unregistered := false;
  techniques := techs;
  output_format := u "console";
  output_file := None;
  verbose := false
|}.

(** *** Statements about the ordering and the analyzer *)

(** The order the specification asks of the final list: falling
    [risk_score], and rising [variant_domain] among equal scores. *)
Definition ordered_as_specified (l : list DomainVariant) : Prop :=
  forall (i j : nat) (x y : DomainVariant),
    (i < j)%nat -> l !! i = Some x -> l !! j = Some y ->
    risk_score y < risk_score x \/
    (risk_score y = risk_score x /\ str_leb (variant_domain x) (variant_domain y) = true).

(** A resolver that answers [A] queries only, a WHOIS service [whois] and
    a clock reading [now]. *)
Definition sample_network (whois : str -> outcome whois_entry) (now : datetime) : Network := {|
  dns_available := true;
  dns_resolve := fun _ rtype =>
    if str_eqb rtype (u "A") then Returned [u "192.0.2.1"] else Raised (u "NoAnswer");
  socket_gethostbyname := fun _ => Raised (u "gaierror");
  whois_available := true;
  whois_whois := whois;
  datetime_now := now
|}.

Definition sample_variant : DomainVariant :=
  new_DomainVariant (u "example.com") (u "examp1e.com") (u "leetspeak")
    (u "Replaced 'l' with '1'").

(** The variant as the [if self.config.check_dns] statement of
    [analyze_variant] leaves it. *)
Definition after_dns (N : Network) (cfg : AnalysisConfig) (variant : DomainVariant)
  : DomainVariant :=
  if check_dns cfg then
    let r := (check_dns_lookup N cfg (variant_domain variant)).1 in
    set_dns variant r.1 r.2
  else variant.

(** [new_name] is [name] with the character at one position replaced by a
    lowercase ASCII letter that differs from it in one of its eight bits. *)
Definition one_bit_flip_of (name new_name : str) : Prop :=
  exists (i bit : nat) (c c' : Z),
    name !! i = Some c /\
    (bit < 8)%nat /\
    (forall k, 0 <= k ->
       Z.testbit c' k = if k =? Z.of_nat bit then negb (Z.testbit c k) else Z.testbit c k) /\
    97 <= c' <= 122 /\
    length new_name = length name /\
    (forall j : nat, new_name !! j = if decide (j = i) then Some c' else name !! j) /\
    (forall j : nat, new_name !! j <> name !! j <-> j = i).

(** ** Further statements about the generator *)

(** The loops behind the sixteen methods, under the names [getattr] finds
    them by. *)
Definition technique_calls (P : Platform) : list (str * (str -> str -> list call)) :=
  [ (u "homograph", homograph_calls P);
    (u "leetspeak", leetspeak_calls);
    (u "typo", typo_calls);
    (u "phonetic", phonetic_calls);
    (u "repetition", repetition_calls P);
    (u "omission", omission_calls);
    (u "insertion", insertion_calls);
    (u "transposition", transposition_calls);
    (u "hyphenation", hyphenation_calls);
    (u "tld", tld_calls);
    (u "prefix", prefix_calls);
    (u "suffix", suffix_calls);
    (u "vowel_swap", vowel_swap_calls);
    (u "double_char", double_char_calls);
    (u "bitsquatting", bitsquatting_calls);
    (u "subdomain", subdomain_calls) ].

(** The techniques a run of [generate_all] goes through. *)
Definition effective_techniques (P : Platform) (self : HomographGenerator) : list str :=
  if existsb (str_eqb (u "all")) (techniques (config self))
  then all_techniques P else techniques (config self).

(** The number of [_add_variant] calls the techniques [techs] make for a
    parsed target. *)
Definition calls_total (P : Platform) (name suffix : str) (techs : list str) : nat :=
  list_sum (map (fun t => match dict_get (technique_calls P) t with
                          | Some calls => length (calls name suffix)
                          | None => 0%nat
                          end) techs).

(** The reasons for which [_add_variant] turns a call down. *)
Definition rejects (P : Platform) (self : HomographGenerator) (c : call) : Prop :=
  strip (str_lower P (call_name c)) = [] \/
  strip (str_lower P (call_tld c)) = [] \/
  full_domain_of P (call_name c) (call_tld c) = original_of self \/
  full_domain_of P (call_name c) (call_tld c) ∈ generated_variants self \/
  max_variants (config self) <= Z.of_nat (size (generated_variants self)).

(** A later state of the same generator. *)
Definition extends (self self' : HomographGenerator) : Prop :=
  config self' = config self /\ domain_name self' = domain_name self /\
  tld self' = tld self /\ generated_variants self ⊆ generated_variants self'.

(** A variant as the dataclass constructor leaves it: only the four
    fields [_add_variant] passes are set, the rest are the defaults. *)
Definition is_new (v : DomainVariant) : Prop :=
  v = new_DomainVariant (original_domain v) (variant_domain v) (technique v)
        (technique_detail v).

(** ** [analyze_all] and the end of [main] *)


(** The exit code of [main]: 1 when no variant was generated, 2 when a
    registered result is critical, high_risk or suspicious, else 0. *)
Definition main_exit_code (variants results : list DomainVariant) : Z :=
  match variants with
  | [] => 1
  | _ :: _ =>
    let suspicious :=
      filter (fun r => is_registered r = true /\
                       In (trust_level r) [u "critical"; u "high_risk"; u "suspicious"])
             results in
    match suspicious with
    | [] => 0
    | _ :: _ => 2
    end
  end.

(** The number of WHOIS lookups in a log. *)
Definition is_whois_query (e : event) : bool :=
  match e with WhoisQuery _ => true | _ => false end.

Definition whois_queries (log : list event) : nat :=
  length (List.filter is_whois_query log).

(** ** [analyzer_api.HomographDomainAnalyzer] *)

(** [x or default] for an optional integer: [None] and [0] are false. *)
Definition int_or (x : option Z) (default : Z) : Z :=
  match x with
  | Some v => if v =? 0 then default else v
  | None => default
  end.

(** [l[:m]] for any integer [m]: a negative [m] counts from the end. *)
Definition slice_to {A : Type} (m : Z) (l : list A) : list A :=
  if 0 <=? m then take (Z.to_nat m) l
  else take (length l - Z.to_nat (- m)) l.

(** The configuration [analyze_domain] builds (lines 139-147); the
    techniques are the dataclass default. *)
Definition api_config (trust_threshold : Z) (domain : str) (dns whois : bool)
    (cap : option Z) (workers dns_timeout : Z) : AnalysisConfig := {|
  target_domain := domain;
  trust_threshold_days := trust_threshold;
  max_variants := int_or cap 10000;
  check_dns := dns;
  check_whois := whois;
  threads := workers;
  timeout := dns_timeout;
  include_unregistered := false;
  techniques := [u "all"];
  output_format := u "console";
  output_file := None;
  verbose := false
|}.

(** The head of [analyze_domain] (lines 149-156): the variants generated
    and the variants handed to [analyze_all]. *)
Definition api_variants (P : Platform) (cfg : AnalysisConfig) (cap : option Z)
  : list DomainVariant * list DomainVariant :=
  let variants := (generate_all P (new_HomographGenerator P cfg)).1 in
  let analysed :=
    match cap with
    | Some m =>
      if negb (m =? 0) && (m <? Z.of_nat (length variants)) then slice_to m variants
      else variants
    | None => variants
    end in
  (variants, analysed).

(** [generate_all_variants] (lines 86-109): the set of the variant domains
    of a run capped at 10000, without DNS or WHOIS. *)
Definition generate_all_variants (P : Platform) (trust_threshold : Z) (domain : str)
    (dns_timeout : Z) : gset str :=
  let cfg := api_config trust_threshold domain false false (Some 10000) 1 dns_timeout in
  list_to_set (map variant_domain (generate_all P (new_HomographGenerator P cfg)).1).

(** The [risk_level] entry [_process_variant] computes (lines 211-222). *)
Definition trust_to_risk : list (str * str) :=
  [ (u "critical", u "HIGH");
    (u "high_risk", u "HIGH");
    (u "suspicious", u "HIGH");
    (u "low_trust", u "MEDIUM");
    (u "moderate", u "MEDIUM");
    (u "established", u "LOW");
    (u "unknown", u "UNKNOWN");
    (u "unregistered", u "UNREGISTERED") ].

Definition risk_level_of (level : str) : str :=
  match dict_get trust_to_risk level with
  | Some risk => risk
  | None => u "UNKNOWN"
  end.

(** ** [batch_analyzer] *)

(** [load_domains_from_file] on the lines of the file. *)
Definition load_domains (lines : list str) : list str :=
  flat_map (fun line =>
    let line := strip line in
    if negb (str_eqb line []) && negb (startswith (u "#") line) then [line] else [])
    lines.

(** The summary [analyze_domain] of the batch driver builds (lines 83-101):
    the counts of all results, of the registered ones, of the suspicious
    ones among them, and of the critical and high_risk ones. *)
Record batch_summary : Type := {
  total_variants_generated : nat;
  registered_count : nat;
  suspicious_count : nat;
  critical_count : nat;
  high_risk_count : nat
}.

Definition batch_registered (results : list DomainVariant) : list DomainVariant :=
  sort_by_risk (filter (fun r => is_registered r = true) results).

Definition batch_suspicious (results : list DomainVariant) : list DomainVariant :=
  filter (fun r => In (trust_level r)
                      [u "critical"; u "high_risk"; u "suspicious"; u "low_trust"])
         (batch_registered results).

Definition summarize (results : list DomainVariant) : batch_summary := {|
  total_variants_generated := length results;
  registered_count := length (batch_registered results);
  suspicious_count := length (batch_suspicious results);
  critical_count :=
    length (filter (fun r => trust_level r = u "critical") (batch_registered results));
  high_risk_count :=
    length (filter (fun r => trust_level r = u "high_risk") (batch_registered results))
|}.

(** ** Proof steps shared by the technique lemmas *)

Ltac tag_calls :=
  repeat match goal with
  | |- Forall _ [] => constructor
  | |- Forall _ (_ :: _) => constructor
  | |- Forall _ (_ ++ _) => rewrite Forall_app; split
  | |- Forall _ (flat_map _ _) => rewrite Forall_flat_map, Forall_forall; intros ? _
  | |- Forall _ (map _ _) => rewrite Forall_map, Forall_forall; intros ? _
  | |- Forall _ _ => progress case_match
  | |- _ = _ => reflexivity
  end.

Ltac in_tags := vm_compute; tauto.

(** ** Properties *)

(** *** Strings *)

Lemma partition_char (c : Z) (s : str) :
  match partition [c] s with
  | Some (a, b) => s = a ++ c :: b /\ ~ In c a
  | None => ~ In c s
  end.
Proof.
  induction s as [|x r IH].
  - simpl. tauto.
  - cbn [partition startswith]. destruct (Z.eqb_spec c x) as [->|Hne].
    + destruct r; simpl; tauto.
    + replace (false && startswith [] r) with false by reflexivity.
      destruct (partition [c] r) as [[a b]|].
      * destruct IH as [-> Hnot]. split; [reflexivity|]. simpl. intros [?|?]; congruence || tauto.
      * simpl. intros [?|?]; congruence || tauto.
Qed.

Lemma contains_char (c : Z) (s : str) : contains [c] s = true <-> In c s.
Proof.
  unfold contains. pose proof (partition_char c s) as H.
  destruct (partition [c] s) as [[a b]|].
  - destruct H as [-> _]. split; [|reflexivity]. intros _. apply in_or_app. right. left. reflexivity.
  - split; [discriminate | tauto].
Qed.

Lemma contains_char_false (c : Z) (s : str) : contains [c] s = false <-> ~ In c s.
Proof.
  rewrite <- contains_char. destruct (contains [c] s); split; congruence || tauto.
Qed.

Lemma rsplit1_char (c : Z) (s : str) :
  match rsplit1 [c] s with
  | [name; suffix] => s = name ++ c :: suffix /\ ~ In c suffix /\ In c s
  | other => other = [s] /\ ~ In c s
  end.
Proof.
  unfold rsplit1. cbn [rev app]. pose proof (partition_char c (rev s)) as H.
  destruct (partition [c] (rev s)) as [[a b]|].
  - destruct H as [Hrev Hnot].
    assert (Hs : s = rev b ++ c :: rev a).
    { rewrite <- (rev_involutive s), Hrev, rev_app_distr. simpl.
      rewrite <- app_assoc. reflexivity. }
    split; [exact Hs|]. split.
    + rewrite <- in_rev. exact Hnot.
    + rewrite Hs. apply in_or_app. right. left. reflexivity.
  - rewrite <- in_rev in H. destruct s as [|x [|y r]]; auto.
Qed.

Lemma lstrip_by_id (p : Z -> bool) (s : str) :
  Forall (fun c => p c = false) s -> lstrip_by p s = s.
Proof. destruct 1 as [|c r Hc _]; simpl; [reflexivity|]. rewrite Hc. reflexivity. Qed.

Lemma rstrip_by_id (p : Z -> bool) (s : str) :
  Forall (fun c => p c = false) s -> rstrip_by p s = s.
Proof.
  intros H. unfold rstrip_by. rewrite lstrip_by_id.
  - apply rev_involutive.
  - apply Forall_forall. intros c Hc. rewrite Forall_forall in H. apply H.
    apply list_elem_of_In. apply list_elem_of_In in Hc. apply in_rev. exact Hc.
Qed.

Lemma isspace_ascii_lower (c : Z) : is_ascii_lower c -> isspace c = false.
Proof.
  unfold is_ascii_lower, isspace. intros H. lia.
Qed.

Lemma strip_ascii_lower (s : str) : Forall is_ascii_lower s -> strip s = s.
Proof.
  intros H. unfold strip.
  assert (Hs : Forall (fun c => isspace c = false) s).
  { eapply Forall_impl; [exact H|]. apply isspace_ascii_lower. }
  rewrite (lstrip_by_id _ _ Hs). apply rstrip_by_id. exact Hs.
Qed.

Lemma ascii_platform_lower (s : str) :
  Forall is_ascii_lower s -> str_lower ascii_platform s = s.
Proof.
  simpl. induction 1 as [|c r Hc _ IH]; simpl; [reflexivity|].
  rewrite IH. f_equal. unfold sample_lower_char, ascii_lower_char, is_ascii_lower in *.
  destruct (Z.eqb_spec c 1068), (Z.eqb_spec c 1280); try lia.
  destruct (Z.leb_spec 65 c), (Z.leb_spec c 90); simpl; lia.
Qed.

(** The homograph loop puts the capital letters U+042C and U+0500 in the
    place of [b]; [_add_variant] lower-cases them, as CPython does. *)
Example homograph_capital_lookalikes :
  map variant_domain
      (generate_all ascii_platform
         (new_HomographGenerator ascii_platform
            (cli_config (u "b.com") 730 1000 [u "homograph"]))).1
  = [u "ь.com"; u "ƅ.com"; u "ԁ.com"].
Proof. vm_compute. reflexivity. Qed.

(** *** The parser *)

(** C4, as stated, fails: on the empty target the stripped string is empty
    and the parser returns the pair [('', 'com')]; no path of
    [_parse_domain] raises. *)
Lemma parse_domain_empty_target :
  strip_target ascii_platform (u "") = [] /\
  _parse_domain ascii_platform (u "") = ([], u "com").
Proof. vm_compute. split; reflexivity. Qed.

(** C4, amended. The parser returns a [(name, tld)] pair for every input,
    the empty one included.  With [tldextract] it is the pair the package
    extracts from the stripped string.  Without it, when the stripped
    string has no dot (in particular when it is empty) the pair is the
    stripped string and ['com']; otherwise the stripped string is cut at
    its last dot. *)
Theorem parse_domain_returns (P : Platform) (domain : str) :
  let stripped := strip_target P domain in
  match tldextract_extract P with
  | Some extract => _parse_domain P domain = extract stripped
  | None =>
    (stripped = [] -> _parse_domain P domain = ([], u "com")) /\
    (contains (u ".") stripped = false -> _parse_domain P domain = (stripped, u "com")) /\
    (contains (u ".") stripped = true ->
     exists name suffix,
       _parse_domain P domain = (name, suffix) /\
       stripped = name ++ u "." ++ suffix /\
       contains (u ".") suffix = false)
  end.
Proof.
  intros stripped. unfold _parse_domain. fold stripped.
  destruct (tldextract_extract P) as [extract|]; [reflexivity|].
  change (u ".") with [46].
  pose proof (rsplit1_char 46 stripped) as H.
  assert (Hnodot : ~ In 46 stripped -> 
            match rsplit1 [46] stripped with
            | [name; suffix] => (name, suffix)
            | _ => (stripped, u "com")
            end = (stripped, u "com")).
  { intros Hno. destruct (rsplit1 [46] stripped) as [|a [|b [|c l]]]; try reflexivity.
    destruct H as (_ & _ & Hin). contradiction. }
  split; [|split].
  - intros Hempty. rewrite Hnodot; rewrite Hempty; [reflexivity | simpl; tauto].
  - intros Hc. apply contains_char_false in Hc. apply Hnodot. exact Hc.
  - intros Hc. apply contains_char in Hc.
    destruct (rsplit1 [46] stripped) as [|a [|b [|c l]]].
    + destruct H as [_ H]. contradiction.
    + destruct H as [_ H]. contradiction.
    + destruct H as (Hs & Hno & _). exists a, b. split; [reflexivity|]. split; [exact Hs|].
      apply contains_char_false. exact Hno.
    + destruct H as [_ H]. contradiction.
Qed.

(** The parser on an empty target, on a bare host name and on a URL. *)
Lemma parse_domain_returns_witness :
  _parse_domain ascii_platform (u "") = ([], u "com") /\
  _parse_domain ascii_platform (u "localhost") = (u "localhost", u "com") /\
  exists name suffix,
    _parse_domain ascii_platform (u "https://www.Example.co.uk/login") = (name, suffix) /\
    u "example.co.uk" = name ++ u "." ++ suffix /\
    contains (u ".") suffix = false.
Proof.
  split; [|split].
  - apply (parse_domain_returns ascii_platform (u "")). reflexivity.
  - apply (parse_domain_returns ascii_platform (u "localhost")). reflexivity.
  - apply (parse_domain_returns ascii_platform (u "https://www.Example.co.uk/login")).
    reflexivity.
Defined.

(** *** The generator *)

Section GeneratorFacts.
Variable P : Platform.

Lemma str_eqb_false (a b : str) : str_eqb a b = false <-> a <> b.
Proof. unfold str_eqb. apply bool_decide_eq_false. Qed.

Lemma add_variant_none self name suffix tech detail self' :
  _add_variant P self name suffix tech detail = (None, self') -> self' = self.
Proof.
  unfold _add_variant. repeat case_match; congruence.
Qed.

Lemma add_variant_some self name suffix tech detail v self' :
  _add_variant P self name suffix tech detail = (Some v, self') ->
  v = new_DomainVariant (original_of self) (full_domain_of P name suffix) tech detail /\
  self' = remember self (full_domain_of P name suffix) /\
  full_domain_of P name suffix <> original_of self /\
  (full_domain_of P name suffix ∉ generated_variants self) /\
  Z.of_nat (size (generated_variants self)) < max_variants (config self).
Proof.
  unfold _add_variant, full_domain_of.
  repeat case_match; try congruence.
  intros [= <- <-].
  repeat split.
  - match goal with H : str_eqb _ (original_of _) = false |- _ =>
      apply str_eqb_false in H end. assumption.
  - match goal with H : bool_decide _ = false |- _ =>
      apply bool_decide_eq_false in H end. assumption.
  - match goal with H : (_ >=? _) = false |- _ =>
      rewrite Z.geb_leb in H; apply Z.leb_gt in H end. lia.
Qed.

Lemma emission_nil self : emission self [] self.
Proof.
  split; simpl; try reflexivity; try constructor.
  - symmetry. apply union_empty_r_L.
  - lia.
Qed.

Lemma emission_one self name suffix tech detail v self' :
  _add_variant P self name suffix tech detail = (Some v, self') ->
  emission self [v] self'.
Proof.
  intros H. apply add_variant_some in H. simpl in H.
  destruct H as (-> & -> & Hne & Hnew & Hcap).
  split; simpl; try reflexivity.
  - rewrite union_empty_r_L. reflexivity.
  - apply NoDup_singleton.
  - repeat constructor. assumption.
  - repeat constructor. assumption.
  - rewrite size_union by (apply disjoint_singleton_r; assumption).
    rewrite size_singleton. lia.
Qed.

Lemma emission_app s0 vs1 s1 vs2 s2 :
  emission s0 vs1 s1 -> emission s1 vs2 s2 -> emission s0 (vs1 ++ vs2) s2.
Proof.
  intros [c1 n1 t1 g1 d1 f1 o1 k1] [c2 n2 t2 g2 d2 f2 o2 k2].
  split.
  - congruence.
  - congruence.
  - congruence.
  - rewrite g2, g1, map_app, list_to_set_app_L. symmetry. apply assoc_L. apply _.
  - rewrite map_app. apply NoDup_app. split; [assumption|]. split; [|assumption].
    intros x Hx Hx2.
    apply list_elem_of_In, in_map_iff in Hx2 as (v & <- & Hv).
    rewrite Forall_forall in f2. apply list_elem_of_In in Hv. specialize (f2 v Hv).
    apply f2. rewrite g1. apply elem_of_union_r. apply elem_of_list_to_set. assumption.
  - apply Forall_app. split; [assumption|].
    eapply Forall_impl; [exact f2|]. intros v Hv Hin. simpl in Hv. apply Hv.
    rewrite g1. apply elem_of_union_l. exact Hin.
  - apply Forall_app. split; [assumption|]. rewrite n1, t1 in o2. assumption.
  - rewrite c1 in k2. lia.
Qed.

Lemma run_calls_emission calls : forall self,
  emission self (run_calls P self calls).1 (run_calls P self calls).2.
Proof.
  induction calls as [|c rest IH]; intros self; simpl.
  - apply emission_nil.
  - destruct (_add_variant P self _ _ _ _) as [[v|] self1] eqn:Hadd.
    + specialize (IH self1). destruct (run_calls P self1 rest) as [vs self2]. simpl in *.
      apply (emission_app self [v] self1 vs self2); [|assumption].
      eapply emission_one; eassumption.
    + apply add_variant_none in Hadd. subst self1.
      specialize (IH self). destruct (run_calls P self rest) as [vs self2]. assumption.
Qed.

Lemma run_calls_provenance calls : forall self,
  Forall (fun v => exists c, In c calls /\
                     technique v = call_technique c /\
                     original_domain v = original_of self /\
                     variant_domain v = full_domain_of P (call_name c) (call_tld c))
         (run_calls P self calls).1.
Proof.
  induction calls as [|c rest IH]; intros self; simpl.
  - constructor.
  - destruct (_add_variant P self _ _ _ _) as [[v|] self1] eqn:Hadd.
    + specialize (IH self1). destruct (run_calls P self1 rest) as [vs self2]. simpl in *.
      apply add_variant_some in Hadd. simpl in Hadd. destruct Hadd as (-> & -> & _).
      constructor.
      * exists c. simpl. auto.
      * eapply Forall_impl; [exact IH|]. simpl. intros v (c' & Hin & Ht & Ho & Hd).
        exists c'. repeat split; auto.
    + apply add_variant_none in Hadd. subst self1.
      specialize (IH self). destruct (run_calls P self rest) as [vs self2]. simpl in *.
      eapply Forall_impl; [exact IH|]. simpl. intros v (c' & Hin & Ht & Ho & Hd).
      exists c'. repeat split; auto.
Qed.

Lemma confusable_calls_tag f name suffix positions :
  Forall (fun c => call_technique c = u "homograph")
         (confusable_calls f name suffix positions).
Proof.
  induction positions as [|[i char] rest IH]; simpl; [constructor|].
  destruct (f char) as [conf|msg]; [|constructor].
  rewrite Forall_app. split; [|exact IH]. tag_calls.
Qed.

Lemma homograph_tag : tagged (u "homograph") (homograph_calls P).
Proof.
  intros name suffix. unfold homograph_calls. rewrite Forall_app. split.
  - tag_calls.
  - destruct (confusables_is_confusable P); [apply confusable_calls_tag | constructor].
Qed.

Lemma leetspeak_tag : tagged (u "leetspeak") leetspeak_calls.
Proof. intros name suffix. unfold leetspeak_calls. tag_calls. Qed.

Lemma typo_tag : tagged (u "typo") typo_calls.
Proof. intros name suffix. unfold typo_calls. tag_calls. Qed.

Lemma phonetic_tag : tagged (u "phonetic") phonetic_calls.
Proof. intros name suffix. unfold phonetic_calls. tag_calls. Qed.

Lemma repetition_tag : tagged (u "repetition") (repetition_calls P).
Proof. intros name suffix. unfold repetition_calls. tag_calls. Qed.

Lemma omission_tag : tagged (u "omission") omission_calls.
Proof. intros name suffix. unfold omission_calls. tag_calls. Qed.

Lemma insertion_tag : tagged (u "insertion") insertion_calls.
Proof. intros name suffix. unfold insertion_calls. tag_calls. Qed.

Lemma transposition_tag : tagged (u "transposition") transposition_calls.
Proof. intros name suffix. unfold transposition_calls. tag_calls. Qed.

Lemma hyphenation_tag : tagged (u "hyphenation") hyphenation_calls.
Proof. intros name suffix. unfold hyphenation_calls. tag_calls. Qed.

Lemma tld_tag : tagged (u "tld_swap") tld_calls.
Proof. intros name suffix. unfold tld_calls. tag_calls. Qed.

Lemma prefix_tag : tagged (u "prefix") prefix_calls.
Proof. intros name suffix. unfold prefix_calls. tag_calls. Qed.

Lemma suffix_tag : tagged (u "suffix") suffix_calls.
Proof. intros name suffix. unfold suffix_calls. tag_calls. Qed.

Lemma vowel_swap_tag : tagged (u "vowel_swap") vowel_swap_calls.
Proof. intros name suffix. unfold vowel_swap_calls. tag_calls. Qed.

Lemma double_char_tag : tagged (u "double_char") double_char_calls.
Proof. intros name suffix. unfold double_char_calls. tag_calls. Qed.

Lemma bitsquatting_tag : tagged (u "bitsquatting") bitsquatting_calls.
Proof. intros name suffix. unfold bitsquatting_calls. tag_calls. Qed.

Lemma subdomain_tag : tagged (u "subdomain") subdomain_calls.
Proof. intros name suffix. unfold subdomain_calls. tag_calls. Qed.

(** What [getattr] can return: one of the sixteen methods, each the run
    of its calls under one of the emitted tags. *)
Lemma generate_methods_inv tname method :
  dict_get (generate_methods P) tname = Some method ->
  exists calls tag,
    method = run_technique P calls /\ In tag emitted_tags /\ tagged tag calls.
Proof.
  unfold generate_methods. cbn [dict_get].
  repeat (case_match; [intros [= <-]; eexists _, _; split; [reflexivity|];
                       split; [|eauto using homograph_tag, leetspeak_tag, typo_tag,
                          phonetic_tag, repetition_tag, omission_tag, insertion_tag,
                          transposition_tag, hyphenation_tag, tld_tag, prefix_tag,
                          suffix_tag, vowel_swap_tag, double_char_tag, bitsquatting_tag,
                          subdomain_tag]; in_tags |]).
  discriminate.
Qed.

Lemma method_emission tname method self :
  dict_get (generate_methods P) tname = Some method ->
  emission self (method self).1 (method self).2.
Proof.
  intros H. apply generate_methods_inv in H as (calls & tag & -> & _).
  apply run_calls_emission.
Qed.

Lemma method_tags tname method self :
  dict_get (generate_methods P) tname = Some method ->
  Forall (fun v => In (technique v) emitted_tags) (method self).1.
Proof.
  intros H. apply generate_methods_inv in H as (calls & tag & -> & Htag & Hcalls).
  unfold run_technique.
  eapply Forall_impl; [apply run_calls_provenance|]. simpl.
  intros v (c & Hin & Ht & _). rewrite Ht.
  specialize (Hcalls (domain_name self) (tld self)).
  rewrite Forall_forall in Hcalls. apply list_elem_of_In in Hin.
  rewrite (Hcalls c Hin). exact Htag.
Qed.

Lemma run_techniques_emission techs : forall self,
  emission self (run_techniques P self techs).1 (run_techniques P self techs).2.
Proof.
  induction techs as [|t rest IH]; intros self; cbn [run_techniques].
  - apply emission_nil.
  - destruct (dict_get (generate_methods P) t) as [method|] eqn:Hm; [|apply IH].
    pose proof (method_emission t method self Hm) as H1.
    destruct (method self) as [results self1]. specialize (IH self1).
    destruct (run_techniques P self1 rest) as [variants self2]. cbn [fst snd] in *.
    eapply emission_app; eassumption.
Qed.

Lemma run_techniques_tags techs : forall self,
  Forall (fun v => In (technique v) emitted_tags) (run_techniques P self techs).1.
Proof.
  induction techs as [|t rest IH]; intros self; cbn [run_techniques].
  - constructor.
  - destruct (dict_get (generate_methods P) t) as [method|] eqn:Hm; [|apply IH].
    pose proof (method_tags t method self Hm) as H1.
    destruct (method self) as [results self1]. specialize (IH self1).
    destruct (run_techniques P self1 rest) as [variants self2]. cbn [fst snd] in *.
    apply Forall_app. split; assumption.
Qed.

Lemma generate_all_emission self :
  emission self (generate_all P self).1 (generate_all P self).2.
Proof. unfold generate_all. apply run_techniques_emission. Qed.

Lemma emission_size self vs self' :
  emission self vs self' ->
  size (generated_variants self') = (size (generated_variants self) + length vs)%nat.
Proof.
  intros [_ _ _ g d f _ _]. rewrite g.
  rewrite size_union.
  - f_equal. rewrite size_list_to_set by assumption. apply length_map.
  - intros x Hx Hx'. apply elem_of_list_to_set in Hx'.
    apply list_elem_of_In, in_map_iff in Hx' as (v & <- & Hv).
    rewrite Forall_forall in f. apply list_elem_of_In in Hv. exact (f v Hv Hx).
Qed.

Lemma new_generator_config cfg : config (new_HomographGenerator P cfg) = cfg.
Proof. unfold new_HomographGenerator. destruct (_parse_domain P _). reflexivity. Qed.

Lemma new_generator_empty cfg : generated_variants (new_HomographGenerator P cfg) = ∅.
Proof. unfold new_HomographGenerator. destruct (_parse_domain P _). reflexivity. Qed.

End GeneratorFacts.

(** *** Uniqueness, cap and tags *)

Lemma add_variant_capped (P : Platform) (self : HomographGenerator)
    (name suffix tech detail : str) :
  max_variants (config self) <= Z.of_nat (size (generated_variants self)) ->
  _add_variant P self name suffix tech detail = (None, self).
Proof.
  intros Hcap. unfold _add_variant. repeat case_match; try reflexivity.
  match goal with H : (_ >=? _) = false |- _ =>
    rewrite Z.geb_leb in H; apply Z.leb_gt in H end. lia.
Qed.

(** C2. Within one call of [generate_all] the [variant_domain] strings of
    the returned variants are pairwise distinct, and none of them is the
    parsed original [name.tld]; for every platform, configuration, target
    and state of the generator. *)
Theorem generate_all_distinct_and_not_original (P : Platform) (self : HomographGenerator) :
  NoDup (map variant_domain (generate_all P self).1) /\
  Forall (fun v => variant_domain v <> domain_name self ++ u "." ++ tld self)
         (generate_all P self).1.
Proof.
  destruct (generate_all_emission P self) as [_ _ _ _ Hd _ Ho _]. split; assumption.
Qed.

(** C3, as stated, fails for a negative cap: with [max_variants = -1] the
    run returns the empty list, whose length is not at most [-1]. *)
Lemma generate_all_negative_cap :
  let cfg := cli_config (u "example.com") 730 (-1) [u "all"] in
  let out := (generate_all ascii_platform (new_HomographGenerator ascii_platform cfg)).1 in
  out = [] /\ ~ (Z.of_nat (length out) <= max_variants cfg).
Proof.
  vm_compute. split; [reflexivity | intros H; apply H; reflexivity].
Qed.

(** C3, amended. For every configuration with [max_variants = N] the list
    returned by [generate_all] has length at most [max N 0]; once the
    emitted set holds [N] domains every call of [_add_variant] returns
    [None], and so does every call after a run that returned [N] or more
    variants. *)
Theorem generate_all_cap (P : Platform) (self : HomographGenerator) :
  let r := generate_all P self in
  Z.of_nat (length r.1) <= Z.max (max_variants (config self)) 0 /\
  (forall name suffix tech detail,
      max_variants (config self) <= Z.of_nat (size (generated_variants self)) ->
      _add_variant P self name suffix tech detail = (None, self)) /\
  (max_variants (config self) <= Z.of_nat (length r.1) ->
   forall name suffix tech detail,
     _add_variant P r.2 name suffix tech detail = (None, r.2)).
Proof.
  intros r.
  pose proof (generate_all_emission P self) as He. fold r in He.
  pose proof (emission_size _ _ _ He) as Hs.
  destruct He as [Hc _ _ _ _ _ _ Hk].
  repeat split.
  - lia.
  - intros. apply add_variant_capped. assumption.
  - intros Hfull name suffix tech detail. apply add_variant_capped. rewrite Hc. lia.
Qed.

(** A cap of three on the [tld] technique: three variants, then nothing. *)
Lemma generate_all_cap_witness :
  let cfg := cli_config (u "example.com") 730 3 [u "tld"] in
  let r := generate_all ascii_platform (new_HomographGenerator ascii_platform cfg) in
  Z.of_nat (length r.1) <= 3 /\
  _add_variant ascii_platform r.2 (u "example") (u "zz") (u "tld_swap") [] = (None, r.2).
Proof.
  intros cfg r.
  destruct (generate_all_cap ascii_platform (new_HomographGenerator ascii_platform cfg))
    as (Hlen & _ & Hstop).
  split.
  - exact Hlen.
  - apply Hstop. vm_compute. discriminate.
Defined.

(** C5, as stated, fails: the variants of the [tld] technique carry the tag
    [tld_swap], which is not one of the sixteen tags of the specification. *)
Lemma tld_variants_tagged_tld_swap :
  let cfg := cli_config (u "example.com") 730 1000 [u "tld"] in
  let out := (generate_all ascii_platform (new_HomographGenerator ascii_platform cfg)).1 in
  hd_error (map (fun v => (variant_domain v, technique v)) out)
    = Some (u "example.net", u "tld_swap") /\
  ~ In (u "tld_swap") spec_tags.
Proof.
  split.
  - vm_compute. reflexivity.
  - vm_compute. intros H. repeat (destruct H as [H|H]; [discriminate H|]). exact H.
Qed.

(** C5, amended. Every variant returned by [generate_all] carries one of
    the sixteen tags the methods write: the tags of the specification with
    [tld_swap] in the place of [tld]. *)
Theorem generate_all_tags (P : Platform) (self : HomographGenerator) :
  Forall (fun v => In (technique v) emitted_tags) (generate_all P self).1.
Proof. unfold generate_all. apply run_techniques_tags. Qed.

(** *** Bitsquatting *)

Lemma enumerate_from_inv {A : Type} (l : list A) : forall (k i : nat) (x : A),
  In (i, x) (zip (seq k (length l)) l) -> (k <= i)%nat /\ l !! (i - k)%nat = Some x.
Proof.
  induction l as [|y r IH]; intros k i x; simpl; [tauto|].
  intros [[= <- <-]|Hin].
  - split; [lia|]. replace (k - k)%nat with 0%nat by lia. reflexivity.
  - apply IH in Hin as [Hle Hl]. split; [lia|].
    replace (i - k)%nat with (S (i - S k)) by lia. exact Hl.
Qed.

Lemma enumerate_inv {A : Type} (l : list A) (i : nat) (x : A) :
  In (i, x) (enumerate l) -> l !! i = Some x.
Proof.
  unfold enumerate. intros H. apply enumerate_from_inv in H as [_ H].
  rewrite Nat.sub_0_r in H. exact H.
Qed.

Lemma substitute_insert (name : str) (i : nat) (c c' : Z) :
  name !! i = Some c -> substitute name i [c'] = <[i := c']> name.
Proof.
  intros H. unfold substitute. rewrite Nat.add_1_r. symmetry.
  apply insert_take_drop. eapply lookup_lt_Some. exact H.
Qed.

Lemma bit_flip_testbit (c : Z) (bit : nat) (k : Z) :
  0 <= k ->
  Z.testbit (bit_flip c bit) k =
    if k =? Z.of_nat bit then negb (Z.testbit c k) else Z.testbit c k.
Proof.
  intros Hk. unfold bit_flip. rewrite Z.lxor_spec, Z.shiftl_1_l.
  rewrite Z.pow2_bits_eqb by lia. rewrite (Z.eqb_sym (Z.of_nat bit) k).
  destruct (k =? Z.of_nat bit), (Z.testbit c k); reflexivity.
Qed.

Lemma bit_flip_changes (c : Z) (bit : nat) : bit_flip c bit <> c.
Proof.
  intros H. pose proof (bit_flip_testbit c bit (Z.of_nat bit) ltac:(lia)) as Hb.
  rewrite H, Z.eqb_refl in Hb. destruct (Z.testbit c (Z.of_nat bit)); discriminate.
Qed.

Lemma bitsquatting_calls_inv (name suffix : str) (c : call) :
  In c (bitsquatting_calls name suffix) ->
  exists (i bit : nat) (char : Z),
    name !! i = Some char /\ (bit < 8)%nat /\
    97 <= bit_flip char bit <= 122 /\
    call_name c = substitute name i [bit_flip char bit] /\
    call_tld c = suffix.
Proof.
  unfold bitsquatting_calls. rewrite in_flat_map. intros ([i char] & Hpos & Hin).
  apply enumerate_inv in Hpos. rewrite in_flat_map in Hin.
  destruct Hin as (bit & Hbit & Hin).
  unfold range in Hbit. apply in_seq in Hbit.
  destruct ((97 <=? bit_flip char bit) && (bit_flip char bit <=? 122)) eqn:Hrange;
    [|destruct Hin].
  destruct (negb (bit_flip char bit =? char)); [|destruct Hin].
  destruct Hin as [<-|[]].
  exists i, bit, char. simpl. repeat split; try assumption; lia.
Qed.

(** C8. For every name of lowercase ASCII letters, every variant of the
    bitsquatting technique differs from the name in exactly one character
    position; the new character is a lowercase ASCII letter, and it is the
    old one with exactly one of its eight bits flipped. *)
Theorem bitsquatting_flips_one_bit (P : Platform) (self : HomographGenerator) :
  (forall s, Forall is_ascii_lower s -> str_lower P s = s) ->
  Forall is_ascii_lower (domain_name self) ->
  Forall (fun v =>
            technique v = u "bitsquatting" /\
            exists new_name,
              variant_domain v = new_name ++ u "." ++ strip (str_lower P (tld self)) /\
              one_bit_flip_of (domain_name self) new_name)
         (_generate_bitsquatting P self).1.
Proof.
  intros Hlower Hname.
  unfold _generate_bitsquatting, run_technique.
  eapply Forall_impl; [apply run_calls_provenance|]. cbv beta.
  intros v (c & Hin & Htag & _ & Hdom).
  pose proof (bitsquatting_tag (domain_name self) (tld self)) as Htags.
  rewrite Forall_forall in Htags.
  split; [rewrite Htag; apply Htags, list_elem_of_In, Hin|].
  apply bitsquatting_calls_inv in Hin as (i & bit & char & Hi & Hbit & Hrange & Hn & Ht).
  rewrite (substitute_insert _ _ _ _ Hi) in Hn.
  assert (Hnew : Forall is_ascii_lower (<[i := bit_flip char bit]> (domain_name self))).
  { apply Forall_insert; [exact Hname | exact Hrange]. }
  exists (<[i := bit_flip char bit]> (domain_name self)). split.
  - rewrite Hdom. unfold full_domain_of. rewrite Hn, Ht.
    rewrite (Hlower _ Hnew), (strip_ascii_lower _ Hnew). reflexivity.
  - exists i, bit, char, (bit_flip char bit).
    assert (Hlook : forall j : nat,
               <[i := bit_flip char bit]> (domain_name self) !! j =
               if decide (j = i) then Some (bit_flip char bit) else domain_name self !! j).
    { intros j. destruct (decide (j = i)) as [->|Hne].
      - apply list_lookup_insert_eq. eapply lookup_lt_Some. exact Hi.
      - apply list_lookup_insert_ne. congruence. }
    repeat split; try assumption; try lia.
    + intros k Hk. apply bit_flip_testbit. exact Hk.
    + apply length_insert.
    + intros Hj. specialize (Hlook j). destruct (decide (j = i)); [assumption|].
      rewrite Hlook in Hj. congruence.
    + intros ->. rewrite Hlook. destruct (decide (i = i)); [|congruence].
      rewrite Hi. intros [= H]. exact (bit_flip_changes _ _ H).
Qed.

(** The eight bitsquatting variants of [ab.com]. *)
Lemma bitsquatting_flips_one_bit_witness :
  let self := new_HomographGenerator ascii_platform (default_config (u "ab.com")) in
  length (_generate_bitsquatting ascii_platform self).1 = 8%nat /\
  Forall (fun v =>
            technique v = u "bitsquatting" /\
            exists new_name,
              variant_domain v = new_name ++ u "." ++ strip (str_lower ascii_platform (tld self)) /\
              one_bit_flip_of (domain_name self) new_name)
         (_generate_bitsquatting ascii_platform self).1.
Proof.
  intros self. split; [vm_compute; reflexivity|].
  apply (bitsquatting_flips_one_bit ascii_platform self).
  - exact ascii_platform_lower.
  - change (domain_name self) with [97; 98]. repeat constructor; unfold is_ascii_lower; lia.
Defined.

(** *** Trust levels *)

(** C1, as stated, fails when the threshold is below 365: an age of 200
    days is at least a threshold of 100 days, and is classified
    [low_trust], not [established]. *)
Lemma trust_level_small_threshold :
  let cfg := cli_config (u "example.com") 100 1000 [u "all"] in
  trust_threshold_days cfg <= 200 /\
  calculate_trust_level cfg (Some 200) = (u "low_trust", 55) /\
  calculate_trust_level cfg (Some 200) <> (u "established", 15).
Proof.
  vm_compute. repeat split; discriminate.
Qed.

(** C1, amended. [calculate_trust_level] depends on the age and the
    configured threshold only, and for every integer age and every
    threshold: below 30 it is critical/95, from 30 below 90 high_risk/85,
    from 90 below 180 suspicious/70, from 180 below 365 low_trust/55, from
    365 below the threshold moderate/35, from both 365 and the threshold
    on established/15, and for an absent age unknown/50. *)
Theorem calculate_trust_level_table (cfg : AnalysisConfig) (days : Z) :
  calculate_trust_level cfg None = (u "unknown", 50) /\
  (days < 30 -> calculate_trust_level cfg (Some days) = (u "critical", 95)) /\
  (30 <= days < 90 -> calculate_trust_level cfg (Some days) = (u "high_risk", 85)) /\
  (90 <= days < 180 -> calculate_trust_level cfg (Some days) = (u "suspicious", 70)) /\
  (180 <= days < 365 -> calculate_trust_level cfg (Some days) = (u "low_trust", 55)) /\
  (365 <= days < trust_threshold_days cfg ->
   calculate_trust_level cfg (Some days) = (u "moderate", 35)) /\
  (365 <= days -> trust_threshold_days cfg <= days ->
   calculate_trust_level cfg (Some days) = (u "established", 15)).
Proof.
  unfold calculate_trust_level.
  repeat split; intros;
    repeat match goal with
           | |- context [?a <? ?b] => destruct (Z.ltb_spec a b); try lia
           end; reflexivity.
Qed.

(** The table at the default threshold of 730 days, on its boundaries. *)
Lemma calculate_trust_level_table_witness :
  let cfg := cli_config (u "example.com") 730 1000 [u "all"] in
  calculate_trust_level cfg (Some 29) = (u "critical", 95) /\
  calculate_trust_level cfg (Some 30) = (u "high_risk", 85) /\
  calculate_trust_level cfg (Some 90) = (u "suspicious", 70) /\
  calculate_trust_level cfg (Some 180) = (u "low_trust", 55) /\
  calculate_trust_level cfg (Some 729) = (u "moderate", 35) /\
  calculate_trust_level cfg (Some 730) = (u "established", 15).
Proof.
  intros cfg.
  split; [apply (calculate_trust_level_table cfg 29); lia|].
  split; [apply (calculate_trust_level_table cfg 30); lia|].
  split; [apply (calculate_trust_level_table cfg 90); lia|].
  split; [apply (calculate_trust_level_table cfg 180); lia|].
  split; [apply (calculate_trust_level_table cfg 729); simpl; lia|].
  apply (calculate_trust_level_table cfg 730); simpl; lia.
Defined.

(** *** The ordering *)

Lemma insert_by_risk_perm x l : Permutation (insert_by_risk x l) (x :: l).
Proof.
  induction l as [|y rest IH]; simpl; [reflexivity|].
  destruct (risk_score y <=? risk_score x); [reflexivity|].
  rewrite IH. apply perm_swap.
Qed.

Lemma insert_by_risk_sorted x l :
  StronglySorted (fun a b => risk_score b <= risk_score a) l ->
  StronglySorted (fun a b => risk_score b <= risk_score a) (insert_by_risk x l).
Proof.
  induction 1 as [|y rest Hs IH Hall]; simpl.
  - repeat constructor.
  - destruct (Z.leb_spec (risk_score y) (risk_score x)) as [Hle|Hgt].
    + constructor; [constructor; assumption|].
      constructor; [assumption|].
      eapply Forall_impl; [exact Hall|]. simpl. intros. lia.
    + constructor; [assumption|].
      rewrite insert_by_risk_perm. constructor; [lia | assumption].
  Qed.

Lemma insert_by_risk_filter score x l :
  filter (fun v => risk_score v = score) (insert_by_risk x l) =
  filter (fun v => risk_score v = score) (x :: l).
Proof.
  induction l as [|y rest IH]; simpl; [reflexivity|].
  destruct (Z.leb_spec (risk_score y) (risk_score x)) as [Hle|Hgt]; [reflexivity|].
  rewrite (filter_cons _ y (insert_by_risk x rest)), IH.
  rewrite !filter_cons.
  destruct (decide (risk_score y = score)), (decide (risk_score x = score));
    try reflexivity.
  lia.
Qed.

(** C6, as stated, fails: two results of equal score keep the order in
    which they came, here [b.com] ahead of [a.com]. *)
Lemma equal_scores_keep_arrival_order :
  let vb := set_trust (new_DomainVariant (u "c.com") (u "b.com") (u "typo") []) (u "unknown", 50) in
  let va := set_trust (new_DomainVariant (u "c.com") (u "a.com") (u "typo") []) (u "unknown", 50) in
  final_results [vb; va] = [vb; va] /\ ~ ordered_as_specified (final_results [vb; va]).
Proof.
  intros vb va. split; [reflexivity|].
  intros H. specialize (H 0%nat 1%nat vb va).
  destruct H as [H|[_ H]]; [lia | reflexivity | reflexivity | |].
  - vm_compute in H. discriminate H.
  - vm_compute in H. discriminate H.
Qed.

(** C6, amended. The final list is a rearrangement of the analyzed
    variants in falling [risk_score]; variants of equal [risk_score] keep
    the order in which the analyzer returned them. *)
Theorem final_results_sorted_stable (results : list DomainVariant) :
  Permutation (final_results results) results /\
  StronglySorted (fun a b => risk_score b <= risk_score a) (final_results results) /\
  forall score : Z,
    filter (fun v => risk_score v = score) (final_results results) =
    filter (fun v => risk_score v = score) results.
Proof.
  unfold final_results, sort_by_risk.
  induction results as [|x rest (Hp & Hs & Hf)]; simpl.
  - repeat split; constructor.
  - repeat split.
    + rewrite insert_by_risk_perm. constructor. assumption.
    + apply insert_by_risk_sorted. assumption.
    + intros score. rewrite insert_by_risk_filter, !filter_cons, Hf. reflexivity.
Qed.

(** *** The analyzer *)

Section AnalyzerFacts.
Variable N : Network.
Variable cfg : AnalysisConfig.

(** [get_whois] hands back [None], a [datetime] or a false value. *)
Lemma get_whois_creation_date domain :
  match (get_whois N domain).1.1.1 with
  | PyOther true _ => False
  | _ => True
  end.
Proof.
  unfold get_whois. destruct (whois_available N); simpl; [|exact I].
  destruct (whois_whois N domain) as [w|msg]; simpl; [|exact I].
  destruct (entry_creation_date w) as [v|[|v l]]; simpl; try exact I;
    destruct v as [|t|t o|[|] [t|]]; simpl; exact I.
Qed.

Lemma get_whois_raised domain msg :
  whois_available N = true -> whois_whois N domain = Raised msg ->
  get_whois N domain = ((PyNone, None, []), [WhoisQuery domain]).
Proof.
  intros Ha Hr. unfold get_whois. rewrite Ha. simpl. rewrite Hr. reflexivity.
Qed.

Lemma after_dns_domain variant : variant_domain (after_dns N cfg variant) = variant_domain variant.
Proof. unfold after_dns. destruct (check_dns cfg); reflexivity. Qed.

Lemma after_dns_age variant : domain_age_days (after_dns N cfg variant) = domain_age_days variant.
Proof. unfold after_dns. destruct (check_dns cfg); reflexivity. Qed.

Lemma after_dns_error variant : error (after_dns N cfg variant) = error variant.
Proof. unfold after_dns. destruct (check_dns cfg); reflexivity. Qed.

(** The three branches of [analyze_variant], as equations on its result. *)
Lemma analyze_variant_unregistered variant :
  is_registered (after_dns N cfg variant) = false ->
  (analyze_variant N cfg variant).1 = set_trust (after_dns N cfg variant) (u "unregistered", 0).
Proof.
  unfold analyze_variant, analyze_body, after_dns.
  destruct (check_dns cfg); simpl.
  - destruct (check_dns_lookup N cfg (variant_domain variant)) as [[reg recs] log]. simpl.
    intros ->. reflexivity.
  - intros ->. reflexivity.
Qed.

Lemma analyze_variant_no_whois variant :
  is_registered (after_dns N cfg variant) = true -> check_whois cfg = false ->
  (analyze_variant N cfg variant).1 = set_trust (after_dns N cfg variant) (u "unknown", 50).
Proof.
  unfold analyze_variant, analyze_body, after_dns.
  destruct (check_dns cfg); simpl.
  - destruct (check_dns_lookup N cfg (variant_domain variant)) as [[reg recs] log]. simpl.
    intros -> ->. reflexivity.
  - intros -> ->. reflexivity.
Qed.

Lemma analyze_variant_whois variant :
  is_registered (after_dns N cfg variant) = true -> check_whois cfg = true ->
  let r := (get_whois N (variant_domain variant)).1 in
  let looked_up :=
    set_whois (after_dns N cfg variant) r.1.1 r.1.2
      (filter (fun kv => bool_decide (kv.1 ∈ whois_keys)) r.2) in
  (analyze_variant N cfg variant).1 =
  match r.1.1 with
  | PyDatetime t =>
    let aged := set_age looked_up (timedelta_days (datetime_now N - t)) in
    set_trust aged (calculate_trust_level cfg (domain_age_days aged))
  | PyAwareDatetime _ _ =>
    set_error looked_up (u "can't subtract offset-naive and offset-aware datetimes")
  | PyOther true _ => set_error looked_up (u "unsupported operand type(s) for -")
  | _ => set_trust looked_up (calculate_trust_level cfg (domain_age_days looked_up))
  end.
Proof.
  unfold analyze_variant, analyze_body, after_dns.
  destruct (check_dns cfg); simpl.
  - destruct (check_dns_lookup N cfg (variant_domain variant)) as [[reg recs] log]. simpl.
    intros -> ->. simpl.
    destruct (get_whois N (variant_domain variant)) as [[[cd reg] data] wlog]. simpl.
    destruct cd as [|t|t o|[|] p]; reflexivity.
  - intros -> ->. simpl.
    destruct (get_whois N (variant_domain variant)) as [[[cd reg] data] wlog]. simpl.
    destruct cd as [|t|t o|[|] p]; reflexivity.
Qed.

Lemma analyze_variant_registered variant :
  is_registered (analyze_variant N cfg variant).1 = is_registered (after_dns N cfg variant).
Proof.
  destruct (is_registered (after_dns N cfg variant)) eqn:Hr.
  - destruct (check_whois cfg) eqn:Hw.
    + rewrite (analyze_variant_whois variant Hr Hw). cbv zeta.
      destruct ((get_whois N (variant_domain variant)).1.1.1) as [|t|t o|[|] p]; simpl; exact Hr.
    + rewrite (analyze_variant_no_whois variant Hr Hw). exact Hr.
  - rewrite (analyze_variant_unregistered variant Hr). exact Hr.
Qed.


End AnalyzerFacts.

(** C7, as stated, fails: the resolver answers, the WHOIS lookup raises,
    and the variant comes back registered, unknown, 50, with no error:
    [get_whois] catches the exception itself. *)
Lemma whois_exception_leaves_no_error :
  let net := sample_network (fun _ => Raised (u "connection timed out")) 0 in
  let v' := (analyze_variant net (default_config (u "example.com")) sample_variant).1 in
  (check_dns_lookup net (default_config (u "example.com")) (variant_domain sample_variant)).1.1
    = true /\
  whois_whois net (variant_domain sample_variant) = Raised (u "connection timed out") /\
  is_registered v' = true /\ trust_level v' = u "unknown" /\ risk_score v' = 50 /\
  error v' = None.
Proof. vm_compute. repeat split; reflexivity. Qed.

(** C7, amended. For every variant without a recorded age whose DNS step
    concluded registered and whose WHOIS lookup raises, [analyze_variant]
    returns it registered, with trust level unknown and risk score 50, and
    with the [error] field as it was on entry ([None] for a new variant). *)
Theorem analyze_variant_whois_raises (N : Network) (cfg : AnalysisConfig)
    (variant : DomainVariant) (msg : str) :
  check_dns cfg = true ->
  (check_dns_lookup N cfg (variant_domain variant)).1.1 = true ->
  check_whois cfg = true ->
  whois_available N = true ->
  whois_whois N (variant_domain variant) = Raised msg ->
  domain_age_days variant = None ->
  let v' := (analyze_variant N cfg variant).1 in
  is_registered v' = true /\ trust_level v' = u "unknown" /\ risk_score v' = 50 /\
  error v' = error variant.
Proof.
  intros Hdns Hreg Hwhois Havail Hraise Hage v'.
  assert (Hr : is_registered (after_dns N cfg variant) = true).
  { unfold after_dns. rewrite Hdns. exact Hreg. }
  subst v'. rewrite (analyze_variant_whois N cfg variant Hr Hwhois). cbv zeta.
  rewrite (get_whois_raised N _ msg Havail Hraise). simpl.
  rewrite after_dns_age, Hage. simpl.
  rewrite after_dns_error. auto.
Qed.

(** A resolver that answers and a WHOIS service that times out. *)
Lemma analyze_variant_whois_raises_witness :
  let net := sample_network (fun _ => Raised (u "connection timed out")) 0 in
  let v' := (analyze_variant net (default_config (u "example.com")) sample_variant).1 in
  is_registered v' = true /\ trust_level v' = u "unknown" /\ risk_score v' = 50 /\
  error v' = error sample_variant.
Proof.
  intros net v'.
  apply (analyze_variant_whois_raises net (default_config (u "example.com")) sample_variant
           (u "connection timed out")); reflexivity.
Defined.




(** *** Variants as the generator hands them over *)

Lemma dict_get_methods P tname :
  dict_get (generate_methods P) tname =
  option_map (run_technique P) (dict_get (technique_calls P) tname).
Proof.
  unfold generate_methods, technique_calls. cbn [dict_get].
  repeat (destruct (str_eqb _ tname); [reflexivity|]). reflexivity.
Qed.

Lemma run_calls_new P calls : forall self, Forall is_new (run_calls P self calls).1.
Proof.
  induction calls as [|c rest IH]; intros self; cbn [run_calls]; [constructor|].
  destruct (_add_variant P self _ _ _ _) as [[v|] self1] eqn:Hadd.
  - specialize (IH self1). destruct (run_calls P self1 rest) as [vs self2]. simpl in *.
    constructor; [|exact IH].
    apply add_variant_some in Hadd as (-> & _). reflexivity.
  - specialize (IH self1). destruct (run_calls P self1 rest) as [vs self2]. exact IH.
Qed.

Lemma run_techniques_new P techs : forall self, Forall is_new (run_techniques P self techs).1.
Proof.
  induction techs as [|t rest IH]; intros self; cbn [run_techniques]; [constructor|].
  rewrite dict_get_methods.
  destruct (dict_get (technique_calls P) t) as [calls|]; simpl; [|apply IH].
  unfold run_technique.
  pose proof (run_calls_new P (calls (domain_name self) (tld self)) self) as H1.
  destruct (run_calls P self _) as [results self1]. specialize (IH self1).
  destruct (run_techniques P self1 rest) as [variants self2]. simpl in *.
  apply Forall_app. split; assumption.
Qed.

Lemma generate_all_new P self : Forall is_new (generate_all P self).1.
Proof. unfold generate_all. apply run_techniques_new. Qed.



(** ** Scenarios of the specification *)

Example scenario_tld_swap :
  let out := (generate_all ascii_platform
                (new_HomographGenerator ascii_platform
                   (cli_config (u "example.com") 730 1000 [u "tld"]))).1 in
  forallb (fun d => existsb (str_eqb d) (map variant_domain out))
          [u "example.net"; u "example.org"; u "example.co.uk"] = true /\
  existsb (str_eqb (u "example.com")) (map variant_domain out) = false /\
  forallb (fun v => str_eqb (technique v) (u "tld_swap")) out = true.
Proof. vm_compute. repeat split. Qed.

Example scenario_homograph_cap :
  length (generate_all ascii_platform
            (new_HomographGenerator ascii_platform
               (cli_config (u "paypal.com") 730 10 [u "homograph"]))).1 = 10%nat.
Proof. vm_compute. reflexivity. Qed.

Example scenario_omission_single_letter :
  (generate_all ascii_platform
     (new_HomographGenerator ascii_platform
        (cli_config (u "a.com") 730 1000 [u "omission"]))).1 = [].
Proof. vm_compute. reflexivity. Qed.

Example scenario_never_registered :
  let net := {| dns_available := true;
                dns_resolve := fun _ _ => Raised (u "NXDOMAIN");
                socket_gethostbyname := fun _ => Raised (u "gaierror");
                whois_available := true;
                whois_whois := fun _ => Raised (u "no match");
                datetime_now := 0 |} in
  let v' := (analyze_variant net (default_config (u "example.com")) sample_variant).1 in
  is_registered v' = false /\ trust_level v' = u "unregistered" /\ risk_score v' = 0 /\
  dns_records v' = [] /\ whois_data v' = [].
Proof. vm_compute. repeat split. Qed.

Example scenario_forty_five_days :
  let now := 1000 * microseconds_per_day in
  let whois := fun _ : str =>
    Returned {| entry_items := [(u "registrar", u "Example Registrar")];
                entry_creation_date := Single (PyDatetime (now - 45 * microseconds_per_day));
                entry_registrar := Some (u "Example Registrar") |} in
  let v' := (analyze_variant (sample_network whois now)
               (default_config (u "example.com")) sample_variant).1 in
  domain_age_days v' = Some 45 /\ trust_level v' = u "high_risk" /\ risk_score v' = 85.
Proof. vm_compute. repeat split. Qed.

Example scenario_sort :
  map risk_score
      (final_results (map (fun score => set_trust sample_variant (u "unknown", score))
                          [15; 95; 0; 70; 50]))
  = [95; 70; 50; 15; 0].
Proof. vm_compute. reflexivity. Qed.

(** ** Beyond the specification *)

(** *** Runs of the generator on a used generator *)

Lemma emission_extends self vs self' : emission self vs self' -> extends self self'.
Proof.
  intros [c n t g _ _ _ _]. repeat split; try assumption.
  rewrite g. apply union_subseteq_l.
Qed.

Lemma extends_refl self : extends self self.
Proof. repeat split; reflexivity. Qed.

Lemma extends_trans s0 s1 s2 : extends s0 s1 -> extends s1 s2 -> extends s0 s2.
Proof.
  intros (c1 & n1 & t1 & g1) (c2 & n2 & t2 & g2).
  repeat split; try congruence. etransitivity; eassumption.
Qed.

Lemma rejects_extends P self self' c : extends self self' -> rejects P self c -> rejects P self' c.
Proof.
  intros (Hc & Hn & Ht & Hg) H. unfold rejects, original_of in *. rewrite Hc, Hn, Ht.
  destruct H as [H|[H|[H|[H|H]]]]; auto.
  - right. right. right. left. apply Hg, H.
  - right. right. right. right. pose proof (subseteq_size _ _ Hg). lia.
Qed.

Lemma add_variant_rejects P self c :
  rejects P self c ->
  _add_variant P self (call_name c) (call_tld c) (call_technique c) (call_detail c)
    = (None, self).
Proof.
  unfold rejects, _add_variant, full_domain_of. intros H.
  destruct (str_eqb (strip (str_lower P (call_name c))) []) eqn:E1; [reflexivity|].
  destruct (str_eqb (strip (str_lower P (call_tld c))) []) eqn:E2; [reflexivity|].
  apply str_eqb_false in E1, E2. simpl.
  destruct (str_eqb _ (original_of self)) eqn:E3; [reflexivity|].
  apply str_eqb_false in E3.
  destruct (bool_decide _) eqn:E4; [reflexivity|]. apply bool_decide_eq_false in E4.
  destruct (_ >=? _) eqn:E5; [reflexivity|].
  rewrite Z.geb_leb in E5. apply Z.leb_gt in E5.
  destruct H as [H|[H|[H|[H|H]]]]; try contradiction. lia.
Qed.

Lemma add_variant_none_rejects P self c :
  (_add_variant P self (call_name c) (call_tld c) (call_technique c) (call_detail c)).1 = None ->
  rejects P self c.
Proof.
  unfold rejects, _add_variant, full_domain_of.
  destruct (str_eqb (strip (str_lower P (call_name c))) []) eqn:E1.
  { apply bool_decide_eq_true in E1. auto. }
  destruct (str_eqb (strip (str_lower P (call_tld c))) []) eqn:E2.
  { apply bool_decide_eq_true in E2. auto. }
  simpl.
  destruct (str_eqb _ (original_of self)) eqn:E3.
  { apply bool_decide_eq_true in E3. auto. }
  destruct (bool_decide _) eqn:E4.
  { apply bool_decide_eq_true in E4. auto. }
  destruct (_ >=? _) eqn:E5.
  { rewrite Z.geb_leb in E5. apply Z.leb_le in E5. auto 10. }
  discriminate.
Qed.

Lemma add_variant_then_rejects P self c :
  rejects P (_add_variant P self (call_name c) (call_tld c) (call_technique c)
               (call_detail c)).2 c.
Proof.
  destruct (_add_variant P self _ _ _ _) as [[v|] self1] eqn:Hadd; simpl.
  - apply add_variant_some in Hadd as (_ & -> & _).
    unfold rejects. right. right. right. left. simpl.
    apply elem_of_union_r, elem_of_singleton. reflexivity.
  - pose proof (add_variant_none _ _ _ _ _ _ _ Hadd). subst self1.
    apply add_variant_none_rejects. rewrite Hadd. reflexivity.
Qed.

Lemma run_calls_settles P calls : forall self c,
  In c calls -> rejects P (run_calls P self calls).2 c.
Proof.
  induction calls as [|c0 rest IH]; intros self c Hin; [destruct Hin|].
  pose proof (add_variant_then_rejects P self c0) as H0.
  cbn [run_calls].
  destruct (_add_variant P self _ _ _ _) as [v self1]. simpl in H0.
  pose proof (run_calls_emission P rest self1) as He.
  specialize (IH self1 c).
  destruct (run_calls P self1 rest) as [vs self2]. simpl in *.
  destruct Hin as [<-|Hin]; [|auto].
  eapply rejects_extends; [|exact H0]. eapply emission_extends. exact He.
Qed.

Lemma run_calls_rejected P calls : forall self,
  (forall c, In c calls -> rejects P self c) -> run_calls P self calls = ([], self).
Proof.
  induction calls as [|c0 rest IH]; intros self H; [reflexivity|].
  cbn [run_calls]. rewrite (add_variant_rejects P self c0) by (apply H; left; reflexivity).
  rewrite IH by (intros c Hc; apply H; right; exact Hc). reflexivity.
Qed.

Lemma run_techniques_extends P techs : forall self,
  extends self (run_techniques P self techs).2.
Proof.
  intros self. eapply emission_extends. apply run_techniques_emission.
Qed.

Lemma run_techniques_settles P techs : forall self tname calls c,
  In tname techs ->
  dict_get (technique_calls P) tname = Some calls ->
  In c (calls (domain_name self) (tld self)) ->
  rejects P (run_techniques P self techs).2 c.
Proof.
  induction techs as [|t rest IH]; intros self tname calls c Hin Hcalls Hc; [destruct Hin|].
  cbn [run_techniques]. rewrite dict_get_methods.
  destruct Hin as [->|Hin].
  - rewrite Hcalls. simpl.
    pose proof (run_calls_settles P (calls (domain_name self) (tld self)) self c Hc) as H0.
    unfold run_technique.
    destruct (run_calls P self _) as [results self1].
    pose proof (run_techniques_extends P rest self1) as He.
    destruct (run_techniques P self1 rest) as [variants self2]. simpl in *.
    eapply rejects_extends; eassumption.
  - destruct (dict_get (technique_calls P) t) as [calls0|]; simpl; [|eauto].
    unfold run_technique.
    pose proof (run_calls_emission P (calls0 (domain_name self) (tld self)) self) as He.
    apply emission_extends in He.
    destruct (run_calls P self _) as [results self1].
    specialize (IH self1 tname calls c Hin Hcalls).
    destruct He as (_ & Hn & Ht & _). simpl in Hn, Ht. rewrite Hn, Ht in IH.
    specialize (IH Hc).
    destruct (run_techniques P self1 rest) as [variants self2]. exact IH.
Qed.

Lemma run_techniques_rejected P techs : forall self,
  (forall tname calls c,
      In tname techs -> dict_get (technique_calls P) tname = Some calls ->
      In c (calls (domain_name self) (tld self)) -> rejects P self c) ->
  run_techniques P self techs = ([], self).
Proof.
  induction techs as [|t rest IH]; intros self H; [reflexivity|].
  cbn [run_techniques]. rewrite dict_get_methods.
  destruct (dict_get (technique_calls P) t) as [calls|] eqn:Hcalls; simpl.
  - unfold run_technique. rewrite run_calls_rejected.
    + rewrite IH; [reflexivity|]. intros. eapply H; eauto. right. assumption.
    + intros c Hc. eapply H; eauto. left. reflexivity.
  - apply IH. intros. eapply H; eauto. right. assumption.
Qed.

(** X1. A second call of [generate_all] on the same generator returns no
    variant and leaves the generator as it is: whatever the first call
    emitted or turned down is turned down again. *)
Theorem generate_all_twice (P : Platform) (self : HomographGenerator) :
  generate_all P (generate_all P self).2 = ([], (generate_all P self).2).
Proof.
  unfold generate_all at 1.
  pose proof (generate_all_emission P self) as He. apply emission_extends in He.
  destruct He as (Hc & Hn & Ht & _).
  rewrite Hc. fold (effective_techniques P self).
  apply run_techniques_rejected. intros tname calls c Hin Hcalls Hcin.
  rewrite Hn, Ht in Hcin.
  unfold generate_all. fold (effective_techniques P self).
  eapply run_techniques_settles; eassumption.
Qed.


(** X2. Below the cap nothing is lost: when a run of [generate_all] ends
    with fewer than [max_variants] domains in the emitted set, every call
    made by every technique of the run that has a non-empty name and tld
    and is not the original has its domain among the returned variants,
    or had it in the emitted set before the run. *)
Theorem generate_all_complete_below_cap (P : Platform) (self : HomographGenerator)
    (tname : str) (calls : str -> str -> list call) (c : call) :
  let r := generate_all P self in
  Z.of_nat (size (generated_variants r.2)) < max_variants (config self) ->
  In tname (effective_techniques P self) ->
  dict_get (technique_calls P) tname = Some calls ->
  In c (calls (domain_name self) (tld self)) ->
  strip (str_lower P (call_name c)) <> [] ->
  strip (str_lower P (call_tld c)) <> [] ->
  full_domain_of P (call_name c) (call_tld c) <> original_of self ->
  In (full_domain_of P (call_name c) (call_tld c)) (map variant_domain r.1) \/
  full_domain_of P (call_name c) (call_tld c) ∈ generated_variants self.
Proof.
  intros r Hsize Hin Hcalls Hc Hn Ht Ho.
  pose proof (run_techniques_settles P (effective_techniques P self) self tname calls c
                Hin Hcalls Hc) as H.
  change (run_techniques P self (effective_techniques P self)) with (generate_all P self) in H.
  fold r in H.
  pose proof (generate_all_emission P self) as He. fold r in He.
  destruct He as [Hcfg Hnm Htl Hset _ _ _ _].
  unfold rejects, original_of in H. rewrite Hcfg, Hnm, Htl in H.
  destruct H as [H|[H|[H|[H|H]]]]; try contradiction; [|lia].
  rewrite Hset in H. apply elem_of_union in H as [H|H]; [right; exact H|].
  left. apply elem_of_list_to_set, list_elem_of_In in H. exact H.
Qed.

(** The [tld] technique on [example.com]: [example.net] is returned. *)
Lemma generate_all_complete_below_cap_witness :
  let self := new_HomographGenerator ascii_platform
                (cli_config (u "example.com") 730 1000 [u "tld"]) in
  In (u "example.net") (map variant_domain (generate_all ascii_platform self).1) \/
  u "example.net" ∈ generated_variants self.
Proof.
  intros self.
  apply (generate_all_complete_below_cap ascii_platform self (u "tld") tld_calls
           (mk_call (u "example") (u "net") (u "tld_swap")
              (u "Changed TLD from '.com' to '.net'"))).
  - vm_compute. reflexivity.
  - vm_compute. left. reflexivity.
  - reflexivity.
  - vm_compute. left. reflexivity.
  - vm_compute. discriminate.
  - vm_compute. discriminate.
  - vm_compute. discriminate.
Defined.

(** X3. Technique names that are not one of the sixteen method names are
    passed over: a configuration whose techniques are all unknown, and do
    not include the name all, generates nothing and leaves the generator
    as it is. *)
Theorem generate_all_unknown_techniques (P : Platform) (self : HomographGenerator) :
  Forall (fun t => t <> u "all" /\ ~ In t (all_techniques P)) (techniques (config self)) ->
  generate_all P self = ([], self).
Proof.
  intros H. unfold generate_all.
  assert (Hall : existsb (str_eqb (u "all")) (techniques (config self)) = false).
  { apply not_true_is_false. intros He. apply existsb_exists in He as (t & Hin & Ht).
    apply bool_decide_eq_true in Ht. rewrite Forall_forall in H.
    apply list_elem_of_In in Hin. destruct (H t Hin) as [Hne _]. congruence. }
  rewrite Hall. clear Hall.
  induction H as [|t rest [_ Ht] _ IH]; [reflexivity|].
  cbn [run_techniques].
  destruct (dict_get (generate_methods P) t) as [m|] eqn:Hm; [|exact IH].
  exfalso. apply Ht. unfold all_techniques.
  clear -Hm. revert Hm. generalize (generate_methods P). intros l.
  induction l as [|[k v] l IH]; simpl; [discriminate|].
  destruct (str_eqb k t) eqn:E; [|auto].
  apply bool_decide_eq_true in E. auto.
Qed.

(** The tag [tld_swap] and a capitalised name are not technique names. *)
Lemma generate_all_unknown_techniques_witness :
  let self := new_HomographGenerator ascii_platform
                (cli_config (u "example.com") 730 1000 [u "tld_swap"; u "Homograph"]) in
  generate_all ascii_platform self = ([], self).
Proof.
  intros self. apply (generate_all_unknown_techniques ascii_platform self).
  repeat constructor; try (vm_compute; discriminate);
    vm_compute; intros H; repeat (destruct H as [H|H]; [discriminate H|]); exact H.
Defined.

Lemma run_techniques_original P techs : forall self,
  Forall (fun v => original_domain v = original_of self) (run_techniques P self techs).1.
Proof.
  induction techs as [|t rest IH]; intros self; cbn [run_techniques]; [constructor|].
  rewrite dict_get_methods.
  destruct (dict_get (technique_calls P) t) as [calls|]; simpl; [|apply IH].
  unfold run_technique.
  pose proof (run_calls_provenance P (calls (domain_name self) (tld self)) self) as H1.
  pose proof (run_calls_emission P (calls (domain_name self) (tld self)) self) as He.
  destruct (run_calls P self _) as [results self1]. specialize (IH self1).
  destruct (run_techniques P self1 rest) as [variants self2]. simpl in *.
  apply Forall_app. split.
  - eapply Forall_impl; [exact H1|]. simpl. intros v (c & _ & _ & Ho & _). exact Ho.
  - destruct He as [_ Hn Ht _ _ _ _ _]. unfold original_of in *. rewrite Hn, Ht in IH. exact IH.
Qed.

(** X4. Every variant returned by [generate_all] is a newly constructed
    record: it names the parsed target as its original, and its analysis
    fields hold the dataclass defaults (not registered, no records, no
    age, trust level unknown, risk score 0, no error). *)
Theorem generate_all_new_variants (P : Platform) (self : HomographGenerator) :
  Forall (fun v =>
            original_domain v = domain_name self ++ u "." ++ tld self /\
            is_registered v = false /\ dns_records v = [] /\ whois_data v = [] /\
            creation_date v = PyNone /\ registrar v = None /\ domain_age_days v = None /\
            trust_level v = u "unknown" /\ risk_score v = 0 /\ error v = None)
         (generate_all P self).1.
Proof.
  pose proof (generate_all_new P self) as Hn.
  pose proof (run_techniques_original P (effective_techniques P self) self) as Ho.
  change (run_techniques P self (effective_techniques P self)) with (generate_all P self) in Ho.
  rewrite Forall_forall in Hn, Ho. apply Forall_forall. intros v Hv.
  specialize (Hn v Hv). specialize (Ho v Hv). split; [exact Ho|].
  unfold is_new in Hn. rewrite Hn. simpl. repeat split.
Qed.

(** *** The DNS step *)

Lemma resolve_records_spec N domain record_types : forall is_reg records,
  let r := resolve_records N domain record_types is_reg records in
  r.2 = map (DnsQuery domain) record_types /\
  exists answered,
    r.1.2 = records ++ answered /\
    r.1.1 = is_reg || negb (bool_decide (answered = [])) /\
    sublist (map fst answered) record_types /\
    Forall (fun kv => dns_resolve N domain kv.1 = Returned kv.2) answered.
Proof.
  induction record_types as [|rt rest IH]; intros is_reg records; cbn [resolve_records].
  - simpl. split; [reflexivity|]. exists []. rewrite app_nil_r, orb_false_r.
    repeat split; constructor.
  - unfold io_bind, io_call.
    destruct (dns_resolve N domain rt) as [texts|msg] eqn:Hr.
    + specialize (IH true (records ++ [(rt, texts)])).
      destruct (resolve_records N domain rest true _) as [[reg recs] log].
      simpl in *. destruct IH as (-> & answered & -> & -> & Hsub & Hall).
      split; [reflexivity|]. exists ((rt, texts) :: answered).
      rewrite <- app_assoc. simpl. rewrite orb_true_r.
      repeat split; [constructor; exact Hsub | constructor; [exact Hr | exact Hall]].
    + specialize (IH is_reg records).
      destruct (resolve_records N domain rest is_reg records) as [[reg recs] log].
      simpl in *. destruct IH as (-> & answered & -> & -> & Hsub & Hall).
      split; [reflexivity|]. exists answered.
      repeat split; [apply sublist_cons; exact Hsub | exact Hall].
Qed.

Lemma check_dns_lookup_records (N : Network) (cfg : AnalysisConfig) (domain : str) :
  let r := (check_dns_lookup N cfg domain).1 in
  (r.1 = true <-> r.2 <> []) /\
  sublist (map fst r.2) [u "A"; u "AAAA"; u "MX"; u "NS"].
Proof.
  unfold check_dns_lookup. destruct (dns_available N).
  - pose proof (resolve_records_spec N domain [u "A"; u "AAAA"; u "MX"; u "NS"] false [])
      as (_ & answered & Hrec & Hreg & Hsub & _).
    cbv zeta. rewrite Hrec, Hreg. simpl. split; [|exact Hsub].
    destruct answered; simpl; split; congruence.
  - destruct (socket_setdefaulttimeout (timeout cfg)) as [[]|exn].
    + unfold io_bind, io_call.
      destruct (socket_gethostbyname N domain) as [address|msg]; simpl.
      * split; [split; congruence|]. apply sublist_skip, sublist_nil_l.
      * split; [split; congruence|]. apply sublist_nil_l.
    + simpl. split; [split; congruence|]. apply sublist_nil_l.
Qed.

Lemma socket_setdefaulttimeout_cases (seconds : Z) :
  if (0 <=? seconds) && (seconds <=? 9223372036)
  then socket_setdefaulttimeout seconds = Returned tt
  else exists exn, socket_setdefaulttimeout seconds = Raised exn.
Proof.
  unfold socket_setdefaulttimeout.
  destruct (Z.leb_spec 0 seconds), (Z.leb_spec seconds 9223372036),
    (Z.ltb_spec seconds 0), (Z.ltb_spec 9223372036 seconds);
    cbn [andb]; try lia; eauto.
Qed.

(** X5. [check_dns] reports a domain registered exactly when it returns at
    least one record; the record kinds are distinct, among A, AAAA, MX and
    NS, and in that order. *)
Theorem check_dns_registered_iff_records (N : Network) (cfg : AnalysisConfig)
    (domain : str) :
  let r := (check_dns_lookup N cfg domain).1 in
  (r.1 = true <-> r.2 <> []) /\
  sublist (map fst r.2) [u "A"; u "AAAA"; u "MX"; u "NS"].
Proof. apply check_dns_lookup_records. Qed.

Lemma check_dns_lookup_log (N : Network) (cfg : AnalysisConfig) (domain : str) :
  (check_dns_lookup N cfg domain).2 =
  if dns_available N
  then [DnsQuery domain (u "A"); DnsQuery domain (u "AAAA");
        DnsQuery domain (u "MX"); DnsQuery domain (u "NS")]
  else if (0 <=? timeout cfg) && (timeout cfg <=? 9223372036)
       then [HostLookup domain] else [].
Proof.
  unfold check_dns_lookup. destruct (dns_available N).
  - pose proof (resolve_records_spec N domain [u "A"; u "AAAA"; u "MX"; u "NS"] false [])
      as (Hlog & _).
    exact Hlog.
  - pose proof (socket_setdefaulttimeout_cases (timeout cfg)) as Ht.
    destruct ((0 <=? timeout cfg) && (timeout cfg <=? 9223372036)).
    + rewrite Ht. unfold io_bind, io_call.
      destruct (socket_gethostbyname N domain); reflexivity.
    + destruct Ht as (exn & ->). reflexivity.
Qed.

(** X6. With a resolver, [check_dns] makes exactly four queries for the
    domain, for A, AAAA, MX and NS in that order, whatever the answers.
    Without one it makes exactly one host lookup when the configured
    timeout is one [socket.setdefaulttimeout] accepts (from 0 to
    9223372036 seconds); for any other timeout, a negative one above all,
    that call raises inside the [try], no lookup is made and the domain
    is reported as not registered, without records. *)
Theorem check_dns_queries (N : Network) (cfg : AnalysisConfig) (domain : str) :
  (check_dns_lookup N cfg domain).2 =
    (if dns_available N
     then [DnsQuery domain (u "A"); DnsQuery domain (u "AAAA");
           DnsQuery domain (u "MX"); DnsQuery domain (u "NS")]
     else if (0 <=? timeout cfg) && (timeout cfg <=? 9223372036)
          then [HostLookup domain] else []) /\
  (dns_available N = false ->
   timeout cfg < 0 \/ 9223372036 < timeout cfg ->
   check_dns_lookup N cfg domain = ((false, []), [])).
Proof.
  split; [apply check_dns_lookup_log|].
  intros Hd Ht. unfold check_dns_lookup. rewrite Hd.
  pose proof (socket_setdefaulttimeout_cases (timeout cfg)) as Hc.
  destruct (Z.leb_spec 0 (timeout cfg)), (Z.leb_spec (timeout cfg) 9223372036);
    cbn [andb] in Hc; try lia; destruct Hc as (exn & ->); reflexivity.
Qed.

(** The fallback with a timeout of -1 second: no lookup is made, although
    the host would resolve. *)
Lemma check_dns_queries_witness :
  let net := {| dns_available := false;
                dns_resolve := fun _ _ => Raised (u "NXDOMAIN");
                socket_gethostbyname := fun _ => Returned (u "192.0.2.1");
                whois_available := true;
                whois_whois := fun _ => Raised (u "no match");
                datetime_now := 0 |} in
  let cfg := {| target_domain := u "example.com"; trust_threshold_days := 730;
                max_variants := 1000; check_dns := true; check_whois := true;
                threads := 10; timeout := -1; include_unregistered := false;
                techniques := [u "all"]; output_format := u "console";
                output_file := None; verbose := false |} in
  check_dns_lookup net cfg (u "examp1e.com") = ((false, []), []) /\
  (check_dns_lookup net (default_config (u "example.com")) (u "examp1e.com")).2
    = [HostLookup (u "examp1e.com")].
Proof.
  intros net cfg. split.
  - apply (check_dns_queries net cfg (u "examp1e.com")); [reflexivity | left; reflexivity].
  - apply (check_dns_queries net (default_config (u "example.com")) (u "examp1e.com")).
Defined.

(** *** The calls [analyze_variant] makes *)

Section AnalyzerLog.
Variable N : Network.
Variable cfg : AnalysisConfig.

Lemma get_whois_log domain :
  (get_whois N domain).2 = if whois_available N then [WhoisQuery domain] else [].
Proof.
  unfold get_whois. destruct (whois_available N); simpl; [|reflexivity].
  destruct (whois_whois N domain); reflexivity.
Qed.

Lemma analyze_variant_log variant :
  (analyze_variant N cfg variant).2 =
  (if check_dns cfg then (check_dns_lookup N cfg (variant_domain variant)).2 else [])
  ++ (if is_registered (after_dns N cfg variant) && check_whois cfg
      then (get_whois N (variant_domain variant)).2
           ++ (if truthy (get_whois N (variant_domain variant)).1.1.1 then [ClockRead] else [])
      else []).
Proof.
  unfold analyze_variant, analyze_body, after_dns.
  destruct (check_dns cfg); simpl.
  - destruct (check_dns_lookup N cfg (variant_domain variant)) as [[reg recs] log]. simpl.
    destruct reg; simpl.
    + destruct (check_whois cfg); simpl; [|rewrite !app_nil_r; reflexivity].
      destruct (get_whois N (variant_domain variant)) as [[[cd r] data] wlog]. simpl.
      destruct cd as [|t|t o|[|] p]; simpl; rewrite ?app_nil_r; reflexivity.
    + rewrite !app_nil_r. reflexivity.
  - destruct (is_registered variant); simpl; [|reflexivity].
    destruct (check_whois cfg); simpl; [|reflexivity].
    destruct (get_whois N (variant_domain variant)) as [[[cd r] data] wlog]. simpl.
    destruct cd as [|t|t o|[|] p]; simpl; rewrite ?app_nil_r; reflexivity.
Qed.

Lemma check_dns_log_no_whois domain d :
  ~ In (WhoisQuery d) (check_dns_lookup N cfg domain).2 /\
  ~ In ClockRead (check_dns_lookup N cfg domain).2.
Proof.
  rewrite check_dns_lookup_log.
  destruct (dns_available N), ((0 <=? timeout cfg) && (timeout cfg <=? 9223372036));
    simpl; split;
    intros H; repeat (destruct H as [H|H]; [discriminate H|]); exact H.
Qed.

End AnalyzerLog.

(** X7. [analyze_variant] makes a WHOIS lookup only for the variant's own
    domain, only when the variant comes back registered, WHOIS is enabled
    and the package is available, and at most once; it reads the clock
    only when [get_whois] handed back a [datetime], naive or aware. *)
Theorem analyze_variant_whois_discipline (N : Network) (cfg : AnalysisConfig)
    (variant : DomainVariant) :
  let r := analyze_variant N cfg variant in
  (forall d, In (WhoisQuery d) r.2 ->
     d = variant_domain variant /\ is_registered r.1 = true /\
     check_whois cfg = true /\ whois_available N = true) /\
  (whois_queries r.2 <= 1)%nat /\
  (In ClockRead r.2 ->
   isinstance_datetime (get_whois N (variant_domain variant)).1.1.1 = true).
Proof.
  intros r. subst r. rewrite analyze_variant_log, analyze_variant_registered.
  pose proof (check_dns_log_no_whois N cfg (variant_domain variant)) as Hdns.
  rewrite (get_whois_log N (variant_domain variant)).
  set (dns := if check_dns cfg then _ else []).
  assert (Hd : forall d, ~ In (WhoisQuery d) dns).
  { intros d. subst dns. destruct (check_dns cfg); [apply Hdns | tauto]. }
  assert (Hc : ~ In ClockRead dns).
  { subst dns. destruct (check_dns cfg); [apply (Hdns []) | tauto]. }
  assert (Hf : List.filter is_whois_query dns = []).
  { destruct (List.filter is_whois_query dns) as [|e l] eqn:E; [reflexivity|].
    assert (He : In e (List.filter is_whois_query dns)) by (rewrite E; left; reflexivity).
    apply filter_In in He as [He Hq]. destruct e; try discriminate Hq.
    destruct (Hd _ He). }
  unfold whois_queries. rewrite List.filter_app, Hf. cbn [app].
  destruct (is_registered (after_dns N cfg variant) && check_whois cfg) eqn:Hrw.
  - apply andb_true_iff in Hrw as [Hreg Hw].
    destruct (whois_available N) eqn:Ha;
      destruct ((get_whois N (variant_domain variant)).1.1.1) as [|t|t o|[|] p] eqn:Hcd;
      cbn [truthy app List.filter is_whois_query length];
      (split; [|split; [lia|]]);
      try (intros d Hin; apply in_app_or in Hin as [Hin|Hin]; [destruct (Hd d Hin)|];
           cbn in Hin; intuition congruence);
      try (intros Hin; apply in_app_or in Hin as [Hin|Hin]; [contradiction|];
           cbn in Hin; intuition (try congruence; eauto)).
    all: pose proof (get_whois_creation_date N (variant_domain variant)) as Hbad;
      rewrite Hcd in Hbad; contradiction.
  - rewrite app_nil_r. split; [|split].
    + intros d Hin. destruct (Hd d Hin).
    + simpl. lia.
    + intros Hin. contradiction.
Qed.

(** X8. [analyze_variant] leaves the four fields the generator filled in
    (original domain, variant domain, technique and its detail) as they
    were. *)
Theorem analyze_variant_keeps_provenance (N : Network) (cfg : AnalysisConfig)
    (variant : DomainVariant) :
  let v' := (analyze_variant N cfg variant).1 in
  original_domain v' = original_domain variant /\
  variant_domain v' = variant_domain variant /\
  technique v' = technique variant /\
  technique_detail v' = technique_detail variant.
Proof.
  intros v'. subst v'.
  assert (Hd : forall f : DomainVariant -> str,
             (forall v b r, f (set_dns v b r) = f v) ->
             f (after_dns N cfg variant) = f variant).
  { intros f Hf. unfold after_dns. destruct (check_dns cfg); [apply Hf | reflexivity]. }
  destruct (is_registered (after_dns N cfg variant)) eqn:Hreg.
  - destruct (check_whois cfg) eqn:Hw.
    + rewrite (analyze_variant_whois N cfg variant Hreg Hw). cbv zeta.
      destruct ((get_whois N (variant_domain variant)).1.1.1) as [|t|t o|[|] p]; simpl;
        repeat split; apply Hd; reflexivity.
    + rewrite (analyze_variant_no_whois N cfg variant Hreg Hw). simpl.
      repeat split; apply Hd; reflexivity.
  - rewrite (analyze_variant_unregistered N cfg variant Hreg). simpl.
    repeat split; apply Hd; reflexivity.
Qed.

(** X9. A new variant that the DNS step does not find registered comes back
    with no DNS record, no WHOIS data, no creation date, registrar or age,
    trust level unregistered and risk score 0, and no WHOIS lookup was
    made for it. *)
Theorem analyze_variant_unregistered_is_blank (N : Network) (cfg : AnalysisConfig)
    (variant : DomainVariant) :
  is_new variant ->
  check_dns cfg = true ->
  let r := analyze_variant N cfg variant in
  is_registered r.1 = false ->
  dns_records r.1 = [] /\ whois_data r.1 = [] /\ creation_date r.1 = PyNone /\
  registrar r.1 = None /\ domain_age_days r.1 = None /\
  trust_level r.1 = u "unregistered" /\ risk_score r.1 = 0 /\ error r.1 = None /\
  forall d, ~ In (WhoisQuery d) r.2.
Proof.
  intros Hnew Hdns r Hreg. subst r.
  rewrite analyze_variant_registered in Hreg.
  rewrite (analyze_variant_unregistered N cfg variant Hreg), analyze_variant_log, Hreg.
  pose proof (check_dns_lookup_records N cfg (variant_domain variant)) as [Hiff _].
  pose proof (check_dns_log_no_whois N cfg (variant_domain variant)) as Hlog.
  unfold after_dns in *. rewrite Hdns in *. simpl in *.
  rewrite Hnew. simpl. repeat split.
  - destruct ((check_dns_lookup N cfg (variant_domain variant)).1.2); [reflexivity|].
    assert (Ht : (check_dns_lookup N cfg (variant_domain variant)).1.1 = true)
      by (apply Hiff; discriminate).
    congruence.
  - intros d. rewrite app_nil_r. apply Hlog.
Qed.

(** A resolver without answers for a new variant. *)
Lemma analyze_variant_unregistered_is_blank_witness :
  let net := {| dns_available := true;
                dns_resolve := fun _ _ => Raised (u "NXDOMAIN");
                socket_gethostbyname := fun _ => Raised (u "gaierror");
                whois_available := true;
                whois_whois := fun _ => Raised (u "no match");
                datetime_now := 0 |} in
  let r := analyze_variant net (default_config (u "example.com")) sample_variant in
  dns_records r.1 = [] /\ whois_data r.1 = [] /\ creation_date r.1 = PyNone /\
  registrar r.1 = None /\ domain_age_days r.1 = None /\
  trust_level r.1 = u "unregistered" /\ risk_score r.1 = 0 /\ error r.1 = None /\
  forall d, ~ In (WhoisQuery d) r.2.
Proof.
  intros net r.
  apply (analyze_variant_unregistered_is_blank net (default_config (u "example.com"))
           sample_variant); reflexivity.
Defined.

(** X10. The WHOIS data [analyze_variant] stores is restricted to the seven
    keys of its own list (domain_name, registrar, creation_date,
    expiration_date, name_servers, org, country): when the data on entry
    has only such keys (as the empty data of a new variant), so has the
    data of the result. *)
Theorem analyze_variant_whois_keys (N : Network) (cfg : AnalysisConfig)
    (variant : DomainVariant) :
  Forall (fun kv => In kv.1 whois_keys) (whois_data variant) ->
  Forall (fun kv => In kv.1 whois_keys) (whois_data (analyze_variant N cfg variant).1).
Proof.
  intros H.
  assert (Hd : whois_data (after_dns N cfg variant) = whois_data variant).
  { unfold after_dns. destruct (check_dns cfg); reflexivity. }
  assert (Hf : forall data : list (str * str),
             Forall (fun kv => In kv.1 whois_keys)
                    (filter (fun kv => bool_decide (kv.1 ∈ whois_keys)) data)).
  { intros data. apply Forall_forall. intros kv Hkv.
    apply list_elem_of_filter in Hkv as [Hk _].
    apply Is_true_true, bool_decide_eq_true in Hk. apply list_elem_of_In. exact Hk. }
  destruct (is_registered (after_dns N cfg variant)) eqn:Hreg.
  - destruct (check_whois cfg) eqn:Hw.
    + rewrite (analyze_variant_whois N cfg variant Hreg Hw). cbv zeta.
      destruct ((get_whois N (variant_domain variant)).1.1.1) as [|t|t o|[|] p]; simpl; apply Hf.
    + rewrite (analyze_variant_no_whois N cfg variant Hreg Hw). simpl. rewrite Hd. exact H.
  - rewrite (analyze_variant_unregistered N cfg variant Hreg). simpl. rewrite Hd. exact H.
Qed.

(** A WHOIS answer with a key outside the fixed set. *)
Lemma analyze_variant_whois_keys_witness :
  let whois := fun _ : str =>
    Returned {| entry_items := [(u "registrar", u "R"); (u "emails", u "a@b.c")];
                entry_creation_date := Single PyNone;
                entry_registrar := Some (u "R") |} in
  let v' := (analyze_variant (sample_network whois 0) (default_config (u "example.com"))
               sample_variant).1 in
  Forall (fun kv => In kv.1 whois_keys) (whois_data v').
Proof.
  intros whois v'.
  apply (analyze_variant_whois_keys (sample_network whois 0)
           (default_config (u "example.com")) sample_variant).
  constructor.
Defined.

(** *** Trust levels *)

(** X11. The risk score never rises with the age: an older domain scores at
    most what a younger one does, for every threshold; the score of a
    known age lies between 15 and 95. *)
Theorem calculate_trust_level_monotone (cfg : AnalysisConfig) (younger older : Z) :
  younger <= older ->
  (calculate_trust_level cfg (Some older)).2 <= (calculate_trust_level cfg (Some younger)).2 /\
  15 <= (calculate_trust_level cfg (Some older)).2 <= 95.
Proof.
  intros H. unfold calculate_trust_level.
  repeat match goal with
         | |- context [?a <? ?b] => destruct (Z.ltb_spec a b); try lia
         end; simpl; lia.
Qed.

Lemma calculate_trust_level_monotone_witness :
  let cfg := cli_config (u "example.com") 200 1000 [u "all"] in
  (calculate_trust_level cfg (Some 400)).2 <= (calculate_trust_level cfg (Some 250)).2 /\
  15 <= (calculate_trust_level cfg (Some 400)).2 <= 95.
Proof.
  intros cfg. apply (calculate_trust_level_monotone cfg 250 400). lia.
Defined.

(** *** The ordering, once more *)

Lemma sort_by_risk_sorted (l : list DomainVariant) :
  StronglySorted (fun a b => risk_score b <= risk_score a) (sort_by_risk l).
Proof.
  induction l as [|x rest IH]; simpl; [constructor|].
  apply insert_by_risk_sorted. exact IH.
Qed.

Lemma sort_by_risk_perm (l : list DomainVariant) : Permutation (sort_by_risk l) l.
Proof.
  induction l as [|x rest IH]; simpl; [reflexivity|].
  rewrite insert_by_risk_perm. constructor. exact IH.
Qed.

Lemma insert_by_risk_head x l :
  Forall (fun y => risk_score y <= risk_score x) l -> insert_by_risk x l = x :: l.
Proof.
  destruct 1 as [|y rest Hy _]; simpl; [reflexivity|].
  destruct (Z.leb_spec (risk_score y) (risk_score x)); [reflexivity | lia].
Qed.

Lemma sort_by_risk_id (l : list DomainVariant) :
  StronglySorted (fun a b => risk_score b <= risk_score a) l -> sort_by_risk l = l.
Proof.
  induction 1 as [|x rest _ IH Hall]; simpl; [reflexivity|].
  rewrite IH. apply insert_by_risk_head. exact Hall.
Qed.

Lemma insert_by_risk_filter_sorted (P : DomainVariant -> Prop)
    `{!forall v, Decision (P v)} x l :
  StronglySorted (fun a b => risk_score b <= risk_score a) l ->
  filter P (insert_by_risk x l) =
  if decide (P x) then insert_by_risk x (filter P l) else filter P l.
Proof.
  induction 1 as [|y rest _ IH Hall]; simpl.
  - rewrite filter_cons, filter_nil. destruct (decide (P x)); reflexivity.
  - destruct (Z.leb_spec (risk_score y) (risk_score x)) as [Hle|Hgt].
    + rewrite !filter_cons. destruct (decide (P x)), (decide (P y)); simpl; try reflexivity.
      * destruct (Z.leb_spec (risk_score y) (risk_score x)); [reflexivity | lia].
      * symmetry. apply insert_by_risk_head.
        apply Forall_forall. intros z Hz. apply list_elem_of_filter in Hz as [_ Hz].
        rewrite Forall_forall in Hall. specialize (Hall z Hz). lia.
    + rewrite filter_cons, IH. rewrite filter_cons.
      destruct (decide (P x)), (decide (P y)); simpl; try reflexivity.
      destruct (Z.leb_spec (risk_score y) (risk_score x)); [lia | reflexivity].
Qed.

Lemma sort_by_risk_filter (P : DomainVariant -> Prop) `{!forall v, Decision (P v)} l :
  sort_by_risk (filter P l) = filter P (sort_by_risk l).
Proof.
  induction l as [|x rest IH]; simpl; [reflexivity|].
  rewrite (insert_by_risk_filter_sorted P x _ (sort_by_risk_sorted rest)).
  rewrite filter_cons. destruct (decide (P x)); simpl; rewrite IH; reflexivity.
Qed.

Lemma format_console_results_sorted (results : list DomainVariant) (cfg : AnalysisConfig) :
  format_console_results (final_results results) cfg =
    (if include_unregistered cfg then final_results results
     else filter (fun r => is_registered r = true) (final_results results)) /\
  format_console_results (final_results results) cfg = format_console_results results cfg.
Proof.
  unfold final_results, format_console_results.
  pose proof (sort_by_risk_sorted results) as Hs.
  destruct (include_unregistered cfg); simpl.
  - split; apply sort_by_risk_id; exact Hs.
  - rewrite sort_by_risk_filter, (sort_by_risk_id _ Hs). split; [reflexivity|].
    symmetry. apply sort_by_risk_filter.
Qed.

(** X12. Sorting by risk changes nothing in a list that is already in
    falling order of risk score, so what [main] hands on is a fixed point
    of the sort.  [format_console], which filters and sorts again and
    prints [results[:50]], prints the first 50 registered entries of that
    list (the first 50 entries with [include_unregistered]) in the order
    [main] gave them, the same rows as for the unsorted results; the rows
    printed and the entries left out are together the filtered list. *)
Theorem format_console_after_main (results : list DomainVariant) (cfg : AnalysisConfig) :
  final_results (final_results results) = final_results results /\
  console_rows (final_results results) cfg =
    take 50 (if include_unregistered cfg then final_results results
             else filter (fun r => is_registered r = true) (final_results results)) /\
  console_rows (final_results results) cfg = console_rows results cfg /\
  (length (console_rows results cfg) <= 50)%nat /\
  (length (console_rows results cfg) + console_rows_left_out results cfg =
   length (if include_unregistered cfg then results
           else filter (fun r => is_registered r = true) results))%nat.
Proof.
  pose proof (format_console_results_sorted results cfg) as [H1 H2].
  unfold console_rows, console_rows_left_out.
  split; [apply sort_by_risk_id, sort_by_risk_sorted|].
  split; [rewrite H1; reflexivity|].
  split; [rewrite H2; reflexivity|].
  rewrite length_take.
  assert (Hl : length (format_console_results results cfg) =
               length (if include_unregistered cfg then results
                       else filter (fun r => is_registered r = true) results)).
  { unfold format_console_results.
    rewrite (Permutation_length (sort_by_risk_perm _)).
    destruct (include_unregistered cfg); reflexivity. }
  rewrite <- Hl. split; lia.
Qed.

Lemma risk_scores_sorted (l : list DomainVariant) :
  StronglySorted (fun a b => risk_score b <= risk_score a) l ->
  StronglySorted (fun a b : Z => b <= a) (map risk_score l).
Proof.
  induction 1 as [|x rest _ IH Hall]; simpl; constructor; [exact IH|].
  apply Forall_map. exact Hall.
Qed.

Lemma falling_unique (l1 l2 : list Z) :
  StronglySorted (fun a b : Z => b <= a) l1 ->
  StronglySorted (fun a b : Z => b <= a) l2 ->
  Permutation l1 l2 -> l1 = l2.
Proof.
  intros H1 H2 Hp. eapply StronglySorted_unique_strong; try eassumption.
  intros x1 x2 _ _ Ha Hb. cbv beta in Ha, Hb. lia.
Qed.

Lemma distinct_scores_inj (l : list DomainVariant) (a b : DomainVariant) :
  NoDup (map risk_score l) -> In a l -> In b l -> risk_score a = risk_score b -> a = b.
Proof.
  induction l as [|y rest IH]; simpl; [tauto|].
  intros Hnd Ha Hb Heq. inversion Hnd as [|? ? Hy Hnd']; subst.
  assert (Hin : forall z, In z rest -> risk_score z ∈ map risk_score rest).
  { intros z Hz. apply list_elem_of_In, in_map. exact Hz. }
  destruct Ha as [<-|Ha], Hb as [<-|Hb]; auto.
  - exfalso. apply Hy. rewrite Heq. auto.
  - exfalso. apply Hy. rewrite <- Heq. auto.
Qed.

(** X13. The completion order of the worker pool shows in the final list
    only among equal scores: two orders of the same results give the same
    sequence of risk scores, and the same final list when no two results
    share a score. *)
Theorem final_results_any_order (results1 results2 : list DomainVariant) :
  Permutation results1 results2 ->
  map risk_score (final_results results1) = map risk_score (final_results results2) /\
  (NoDup (map risk_score results1) -> final_results results1 = final_results results2).
Proof.
  intros Hp. unfold final_results.
  assert (Hpp : Permutation (sort_by_risk results1) (sort_by_risk results2)).
  { rewrite !sort_by_risk_perm. exact Hp. }
  split.
  - apply falling_unique; try (apply risk_scores_sorted, sort_by_risk_sorted).
    apply Permutation_map. exact Hpp.
  - intros Hnd.
    eapply StronglySorted_unique_strong; try apply sort_by_risk_sorted; [|exact Hpp].
    intros x1 x2 Hx1 Hx2 Hle Hge. simpl in Hle, Hge.
    assert (Heq : risk_score x1 = risk_score x2) by lia.
    rewrite sort_by_risk_perm in Hx1, Hx2. rewrite <- Hp in Hx2.
    apply list_elem_of_In in Hx1. apply list_elem_of_In in Hx2.
    exact (distinct_scores_inj _ _ _ Hnd Hx1 Hx2 Heq).
Qed.

(** Two results of different score, in either order. *)
Lemma final_results_any_order_witness :
  let a := set_trust sample_variant (u "critical", 95) in
  let b := set_trust sample_variant (u "established", 15) in
  map risk_score (final_results [b; a]) = map risk_score (final_results [a; b]) /\
  (NoDup (map risk_score [b; a]) -> final_results [b; a] = final_results [a; b]).
Proof.
  intros a b. apply (final_results_any_order [b; a] [a; b]). apply perm_swap.
Defined.

(** *** The end of [main] *)

Lemma main_exit_code_cases (variants results : list DomainVariant) :
  main_exit_code variants results =
  if decide (variants = []) then 1
  else if decide (Exists (fun r => is_registered r = true /\
                                   In (trust_level r)
                                      [u "critical"; u "high_risk"; u "suspicious"]) results)
       then 2 else 0.
Proof.
  unfold main_exit_code. destruct variants as [|v vs]; [reflexivity|].
  destruct (decide (v :: vs = [])) as [E|_]; [discriminate E|].
  set (P := fun r : DomainVariant => _ /\ _).
  destruct (filter P results) as [|s l] eqn:Hf.
  - destruct (decide (Exists P results)) as [He|_]; [|reflexivity].
    apply Exists_exists in He as (x & Hx & HP).
    assert (Hin : x ∈ filter P results) by (apply list_elem_of_filter; auto).
    rewrite Hf in Hin. inversion Hin.
  - destruct (decide (Exists P results)) as [_|Hn]; [reflexivity|].
    exfalso. apply Hn. apply Exists_exists. exists s.
    assert (Hin : s ∈ filter P results) by (rewrite Hf; left).
    apply list_elem_of_filter in Hin as [HP Hx]. auto.
Qed.

(** X14. The exit code of [main] does not depend on the order of the
    results: it is the same for every completion order of the pool, and
    the sort [main] applies before computing it does not change it. *)
Theorem main_exit_code_any_order (variants results1 results2 : list DomainVariant) :
  Permutation results1 results2 ->
  main_exit_code variants results1 = main_exit_code variants results2 /\
  main_exit_code variants (final_results results1) = main_exit_code variants results1.
Proof.
  assert (H : forall l1 l2, Permutation l1 l2 ->
                main_exit_code variants l1 = main_exit_code variants l2).
  { intros l1 l2 Hp. rewrite !main_exit_code_cases.
    destruct (decide (variants = [])); [reflexivity|].
    set (P := fun r : DomainVariant => _ /\ _).
    destruct (decide (Exists P l1)) as [H1|H1], (decide (Exists P l2)) as [H2|H2];
      try reflexivity; exfalso.
    - apply H2. rewrite <- Hp. exact H1.
    - apply H1. rewrite Hp. exact H2. }
  intros Hp. split; [apply H; exact Hp|].
  apply H. unfold final_results. apply sort_by_risk_perm.
Qed.

Lemma main_exit_code_any_order_witness :
  let a := set_dns (set_trust sample_variant (u "critical", 95)) true [] in
  let b := set_trust sample_variant (u "unregistered", 0) in
  main_exit_code [a; b] [b; a] = main_exit_code [a; b] [a; b] /\
  main_exit_code [a; b] (final_results [b; a]) = main_exit_code [a; b] [b; a].
Proof.
  intros a b. apply (main_exit_code_any_order [a; b] [b; a] [a; b]). apply perm_swap.
Defined.



(** *** The API *)

Lemma generate_all_length (P : Platform) (self : HomographGenerator) :
  Z.of_nat (length (generate_all P self).1) <= Z.max (max_variants (config self)) 0.
Proof.
  pose proof (generate_all_emission P self) as He.
  pose proof (emission_size _ _ _ He) as Hs.
  destruct He as [_ _ _ _ _ _ _ Hk]. lia.
Qed.

(** X16. [analyze_domain] of the API analyses every variant it generated:
    its own truncation to [max_variants] never removes anything, because
    the generator already stopped at the cap. A [max_variants] of [None]
    or 0 means a cap of 10000, and the number of variants is at most the
    cap (none for a negative one). *)
Theorem api_analyses_all_generated (P : Platform) (trust_threshold : Z) (domain : str)
    (dns whois : bool) (cap : option Z) (workers dns_timeout : Z) :
  let cfg := api_config trust_threshold domain dns whois cap workers dns_timeout in
  let r := api_variants P cfg cap in
  r.2 = r.1 /\
  Z.of_nat (length r.1) <= Z.max (max_variants cfg) 0 /\
  max_variants cfg = match cap with
                     | Some m => if m =? 0 then 10000 else m
                     | None => 10000
                     end.
Proof.
  intros cfg r.
  pose proof (generate_all_length P (new_HomographGenerator P cfg)) as Hlen.
  rewrite new_generator_config in Hlen.
  split; [|split; [exact Hlen | reflexivity]].
  subst r. unfold api_variants. cbn [fst snd].
  destruct cap as [m|]; [|reflexivity].
  destruct (Z.eqb_spec m 0) as [->|Hm]; [reflexivity|]. cbn [negb andb].
  destruct (Z.ltb_spec m (Z.of_nat (length (generate_all P (new_HomographGenerator P cfg)).1)))
    as [Hlt|_]; [|reflexivity].
  assert (Hcap : max_variants cfg = m).
  { subst cfg. unfold api_config, int_or. simpl. destruct (Z.eqb_spec m 0); congruence. }
  rewrite Hcap in Hlen.
  assert (Hneg : m < 0) by lia.
  destruct ((generate_all P (new_HomographGenerator P cfg)).1) as [|v vs] eqn:E.
  - unfold slice_to. destruct (0 <=? m); apply take_nil.
  - exfalso. simpl length in Hlen. lia.
Qed.

(** X17. The set [generate_all_variants] returns has as many elements as the
    run returned variants, at most 10000, and does not contain the parsed
    target itself. *)
Theorem generate_all_variants_size (P : Platform) (trust_threshold : Z) (domain : str)
    (dns_timeout : Z) :
  let cfg := api_config trust_threshold domain false false (Some 10000) 1 dns_timeout in
  let self := new_HomographGenerator P cfg in
  let variants := generate_all_variants P trust_threshold domain dns_timeout in
  size variants = length (generate_all P self).1 /\
  Z.of_nat (size variants) <= 10000 /\
  domain_name self ++ u "." ++ tld self ∉ variants.
Proof.
  intros cfg self variants. subst variants. unfold generate_all_variants.
  fold cfg. fold self.
  pose proof (generate_all_emission P self) as [_ _ _ _ Hnd _ Ho _].
  pose proof (generate_all_length P self) as Hlen.
  unfold self at 2 in Hlen. rewrite new_generator_config in Hlen.
  rewrite size_list_to_set by exact Hnd. rewrite length_map.
  split; [reflexivity|]. split.
  - change (max_variants cfg) with 10000 in Hlen. lia.
  - intros Hin. apply elem_of_list_to_set, list_elem_of_In, in_map_iff in Hin
      as (v & Hv & Hin).
    rewrite Forall_forall in Ho. apply list_elem_of_In in Hin. exact (Ho v Hin Hv).
Qed.

(** X18. The risk level the API derives from an age: HIGH below 180 days,
    MEDIUM from 180 days up to the larger of 365 and the threshold, LOW
    from there on, and UNKNOWN when the age is absent; a trust level
    outside the table is UNKNOWN too. *)
Theorem risk_level_by_age (cfg : AnalysisConfig) (days : Z) :
  let level := fun age => risk_level_of (calculate_trust_level cfg age).1 in
  level None = u "UNKNOWN" /\
  (days < 180 -> level (Some days) = u "HIGH") /\
  (180 <= days < Z.max 365 (trust_threshold_days cfg) -> level (Some days) = u "MEDIUM") /\
  (Z.max 365 (trust_threshold_days cfg) <= days -> level (Some days) = u "LOW") /\
  (forall other, dict_get trust_to_risk other = None -> risk_level_of other = u "UNKNOWN").
Proof.
  cbv zeta. unfold calculate_trust_level.
  split; [reflexivity|].
  split; [|split; [|split]];
    try (intros H;
         repeat match goal with
                | |- context [?a <? ?b] => destruct (Z.ltb_spec a b); try lia
                end; reflexivity).
  intros other Hother. unfold risk_level_of. rewrite Hother. reflexivity.
Qed.

(** *** The batch driver *)

Lemma lstrip_by_idem (p : Z -> bool) (s : str) : lstrip_by p (lstrip_by p s) = lstrip_by p s.
Proof.
  induction s as [|c r IH]; simpl; [reflexivity|].
  destruct (p c) eqn:E; [exact IH|]. simpl. rewrite E. reflexivity.
Qed.

Lemma lstrip_by_suffix (p : Z -> bool) (s : str) :
  exists spaces, s = spaces ++ lstrip_by p s /\ Forall (fun c => p c = true) spaces.
Proof.
  induction s as [|c r (spaces & IH & Hall)]; simpl.
  - exists []. split; [reflexivity | constructor].
  - destruct (p c) eqn:E.
    + exists (c :: spaces). split; [simpl; congruence | constructor; assumption].
    + exists []. split; [reflexivity | constructor].
Qed.

Lemma lstrip_by_head (p : Z -> bool) (s : str) :
  match lstrip_by p s with [] => True | c :: _ => p c = false end.
Proof.
  induction s as [|c r IH]; simpl; [exact I|].
  destruct (p c) eqn:E; [exact IH | exact E].
Qed.

Lemma lstrip_by_fixed (p : Z -> bool) (s : str) :
  match s with [] => True | c :: _ => p c = false end -> lstrip_by p s = s.
Proof. destruct s as [|c r]; simpl; [reflexivity|]. intros ->. reflexivity. Qed.

Lemma rstrip_by_idem (p : Z -> bool) (s : str) : rstrip_by p (rstrip_by p s) = rstrip_by p s.
Proof. unfold rstrip_by. rewrite rev_involutive, lstrip_by_idem. reflexivity. Qed.

Lemma rstrip_by_prefix (p : Z -> bool) (s : str) :
  exists spaces, s = rstrip_by p s ++ spaces.
Proof.
  unfold rstrip_by. destruct (lstrip_by_suffix p (rev s)) as (spaces & H & _).
  exists (rev spaces). rewrite <- rev_app_distr, <- H, rev_involutive. reflexivity.
Qed.

Lemma strip_idem (s : str) : strip (strip s) = strip s.
Proof.
  unfold strip.
  assert (H : lstrip_by isspace (rstrip_by isspace (lstrip_by isspace s))
              = rstrip_by isspace (lstrip_by isspace s)).
  { apply lstrip_by_fixed.
    pose proof (lstrip_by_head isspace s) as Hh.
    destruct (rstrip_by_prefix isspace (lstrip_by isspace s)) as (spaces & Hp).
    destruct (rstrip_by isspace (lstrip_by isspace s)) as [|c r]; [exact I|].
    rewrite Hp in Hh. exact Hh. }
  rewrite H. apply rstrip_by_idem.
Qed.

(** X19. [load_domains_from_file] returns exactly the stripped lines that
    are not empty and do not start with [#], each as often as it occurs
    and in the order of the file; every entry it returns is free of
    surrounding white space. *)
Theorem load_domains_clean (lines : list str) :
  load_domains lines =
    filter (fun d => d <> [] /\ startswith (u "#") d = false) (map strip lines) /\
  (forall d, In d (load_domains lines) <->
             exists line, In line lines /\ d = strip line /\
                          d <> [] /\ startswith (u "#") d = false) /\
  Forall (fun d => strip d = d) (load_domains lines).
Proof.
  assert (Heq : load_domains lines =
                filter (fun d => d <> [] /\ startswith (u "#") d = false) (map strip lines)).
  { unfold load_domains. induction lines as [|line rest IH]; [reflexivity|].
    cbn [flat_map map]. rewrite filter_cons, IH. cbv zeta.
    destruct (str_eqb (strip line) []) eqn:E; cbn [negb andb].
    - apply bool_decide_eq_true in E.
      destruct (decide _) as [[Hne _]|_]; [destruct (Hne E) | reflexivity].
    - apply bool_decide_eq_false in E.
      destruct (startswith (u "#") (strip line)) eqn:Es; cbn [negb andb].
      + destruct (decide _) as [[_ Hs]|_]; [discriminate Hs | reflexivity].
      + destruct (decide _) as [_|Hn]; [reflexivity | destruct Hn; auto]. }
  split; [exact Heq|]. split.
  - intros d. rewrite Heq, <- list_elem_of_In, list_elem_of_filter, list_elem_of_In, in_map_iff.
    split.
    + intros ((Hne & Hs) & line & <- & Hin). exists line. auto.
    + intros (line & Hin & -> & Hne & Hs). split; [auto|]. exists line. auto.
  - rewrite Heq. apply Forall_forall. intros d Hd.
    apply list_elem_of_filter in Hd as [_ Hd]. apply list_elem_of_In, in_map_iff in Hd
      as (line & <- & _). apply strip_idem.
Qed.

Lemma filter_length_disjoint {A : Type} (P Q R : A -> Prop)
    `{!forall x, Decision (P x)} `{!forall x, Decision (Q x)} `{!forall x, Decision (R x)}
    (l : list A) :
  (forall x, P x -> R x) -> (forall x, Q x -> R x) -> (forall x, P x -> Q x -> False) ->
  (length (filter P l) + length (filter Q l) <= length (filter R l))%nat.
Proof.
  intros HP HQ Hd. induction l as [|x rest IH]; [simpl; lia|].
  rewrite !filter_cons.
  destruct (decide (P x)) as [p|], (decide (Q x)) as [q|], (decide (R x)) as [|nr];
    simpl; try lia.
  - destruct (Hd x p q).
  - destruct (Hd x p q).
  - destruct (nr (HP x p)).
  - destruct (nr (HQ x q)).
Qed.

(** X20. The summary of the batch driver is consistent for every list of
    results: the critical and the high_risk entries together are at most
    the suspicious ones, these at most the registered ones, and these at
    most all results; the registered list it reports is in falling order
    of risk score. *)
Theorem summarize_consistent (results : list DomainVariant) :
  let s := summarize results in
  (critical_count s + high_risk_count s <= suspicious_count s)%nat /\
  (suspicious_count s <= registered_count s)%nat /\
  (registered_count s <= total_variants_generated s)%nat /\
  StronglySorted (fun a b => risk_score b <= risk_score a) (batch_registered results) /\
  Forall (fun r => is_registered r = true) (batch_registered results).
Proof.
  cbv zeta. unfold summarize, batch_suspicious. simpl.
  split; [|split; [|split; [|split]]].
  - apply filter_length_disjoint.
    + intros x ->. simpl. auto.
    + intros x ->. simpl. auto.
    + intros x H1 H2. rewrite H1 in H2. vm_compute in H2. discriminate H2.
  - apply length_filter.
  - unfold batch_registered. rewrite (Permutation_length (sort_by_risk_perm _)).
    apply length_filter.
  - apply sort_by_risk_sorted.
  - unfold batch_registered. rewrite sort_by_risk_perm.
    apply Forall_forall. intros r Hr. apply list_elem_of_filter in Hr as [Hr _]. exact Hr.
Qed.

(** *** The parser on a URL *)

Lemma startswith_app (sep rest : str) : startswith sep (sep ++ rest) = true.
Proof.
  induction sep as [|c sep IH]; simpl; [reflexivity|].
  rewrite Z.eqb_refl. exact IH.
Qed.

Lemma partition_here (c : Z) (sep rest : str) :
  partition (c :: sep) ((c :: sep) ++ rest) = Some ([], rest).
Proof.
  simpl. rewrite Z.eqb_refl, startswith_app. simpl. rewrite drop_app_length. reflexivity.
Qed.

Lemma partition_skip (c : Z) (sep a b : str) :
  ~ In c a ->
  partition (c :: sep) (a ++ b) =
  match partition (c :: sep) b with
  | Some (x, y) => Some (a ++ x, y)
  | None => None
  end.
Proof.
  induction a as [|x a IH]; intros Hc.
  - simpl app. destruct (partition (c :: sep) b) as [[? ?]|]; reflexivity.
  - cbn [app partition startswith].
    destruct (Z.eqb_spec c x) as [->|Hne]; [exfalso; apply Hc; left; reflexivity|].
    cbn [andb]. rewrite IH by (intros H; apply Hc; right; exact H).
    destruct (partition (c :: sep) b) as [[? ?]|]; reflexivity.
Qed.

Lemma partition_absent (c : Z) (sep s : str) : ~ In c s -> partition (c :: sep) s = None.
Proof.
  intros H. rewrite <- (app_nil_r s), (partition_skip c sep s [] H). reflexivity.
Qed.

Lemma split_second (c : Z) (sep a rest : str) :
  ~ In c a ->
  nth 1 (split (c :: sep) (a ++ (c :: sep) ++ rest)) [] =
  match partition (c :: sep) rest with
  | Some (x, _) => x
  | None => rest
  end.
Proof.
  intros Hc. unfold split.
  destruct (length (a ++ (c :: sep) ++ rest)) as [|fuel] eqn:Hlen.
  { rewrite !length_app in Hlen. simpl in Hlen. lia. }
  cbn [split_fuel]. rewrite (partition_skip c sep a _ Hc), partition_here.
  cbn [nth]. destruct fuel as [|fuel]; cbn [split_fuel nth].
  - rewrite !length_app in Hlen. simpl in Hlen.
    assert (rest = []) by (destruct rest; [reflexivity | simpl in Hlen; lia]). subst rest.
    reflexivity.
  - destruct (partition (c :: sep) rest) as [[x y]|]; reflexivity.
Qed.

Lemma split_first (c : Z) (sep a rest : str) :
  ~ In c a -> nth 0 (split (c :: sep) (a ++ (c :: sep) ++ rest)) [] = a.
Proof.
  intros Hc. unfold split.
  destruct (length (a ++ (c :: sep) ++ rest)) as [|fuel] eqn:Hlen.
  { rewrite !length_app in Hlen. simpl in Hlen. lia. }
  cbn [split_fuel]. rewrite (partition_skip c sep a _ Hc), partition_here.
  cbn [nth]. apply app_nil_r.
Qed.

Lemma contains_present (c : Z) (sep a rest : str) :
  ~ In c a -> contains (c :: sep) (a ++ (c :: sep) ++ rest) = true.
Proof.
  intros Hc. unfold contains. rewrite (partition_skip c sep a _ Hc), partition_here.
  reflexivity.
Qed.

Lemma contains_absent (c : Z) (sep s : str) : ~ In c s -> contains (c :: sep) s = false.
Proof. intros H. unfold contains. rewrite (partition_absent c sep s H). reflexivity. Qed.

Lemma last_cut_unique (c : Z) (a b a' b' : str) :
  a ++ c :: b = a' ++ c :: b' -> ~ In c b -> ~ In c b' -> a = a' /\ b = b'.
Proof.
  revert a'. induction a as [|x a IH]; intros a' Heq Hb Hb'.
  - destruct a' as [|y a']; simpl in Heq.
    + injection Heq as ->. auto.
    + injection Heq as -> ->. exfalso. apply Hb. apply in_or_app. right. left. reflexivity.
  - destruct a' as [|y a']; simpl in Heq.
    + injection Heq as -> <-. exfalso. apply Hb'. apply in_or_app. right. left. reflexivity.
    + injection Heq as -> Heq. destruct (IH a' Heq Hb Hb') as [-> ->]. auto.
Qed.

Lemma rsplit1_last (c : Z) (name suffix : str) :
  ~ In c suffix -> rsplit1 [c] (name ++ c :: suffix) = [name; suffix].
Proof.
  intros Hs. pose proof (rsplit1_char c (name ++ c :: suffix)) as H.
  destruct (rsplit1 [c] (name ++ c :: suffix)) as [|n [|s [|x l]]].
  - destruct H as [_ H]. exfalso. apply H, in_or_app. right. left. reflexivity.
  - destruct H as [_ H]. exfalso. apply H, in_or_app. right. left. reflexivity.
  - destruct H as (Heq & Hno & _).
    destruct (last_cut_unique c name suffix n s Heq Hs Hno) as [-> ->]. reflexivity.
  - destruct H as [_ H]. exfalso. apply H, in_or_app. right. left. reflexivity.
Qed.

(** The host a URL is reduced to: the scheme up to the first [://] and the
    path from the first [/] on are dropped. *)
Lemma strip_url (scheme host path : str) :
  ~ In 58 scheme -> ~ In 58 host -> ~ In 47 host ->
  let mid := nth 1 (split (u "://") (scheme ++ u "://" ++ host ++ u "/" ++ path)) [] in
  contains (u "://") (scheme ++ u "://" ++ host ++ u "/" ++ path) = true /\
  contains (u "/") mid = true /\
  nth 0 (split (u "/") mid) [] = host.
Proof.
  intros Hs Hh1 Hh2 mid. change (u "://") with (58 :: [47; 47]) in *.
  change (u "/") with (47 :: []) in *.
  split; [apply contains_present; exact Hs|].
  assert (Hmid : exists q, mid = host ++ [47] ++ q).
  { subst mid. rewrite (split_second 58 [47; 47] scheme _ Hs).
    rewrite (partition_skip 58 [47; 47] host _ Hh1).
    destruct (partition [58; 47; 47] ([47] ++ path)) as [[x y]|] eqn:E.
    - rewrite (partition_skip 58 [47; 47] [47] path) in E
        by (simpl; intros [H|[]]; discriminate H).
      destruct (partition [58; 47; 47] path) as [[x' y']|]; [|discriminate E].
      injection E as <- <-. exists x'. reflexivity.
    - exists path. reflexivity. }
  destruct Hmid as (q & ->).
  split; [apply contains_present; exact Hh2 | apply split_first; exact Hh2].
Qed.

(** X21. Without [tldextract], a URL of the form
    [scheme://www.name.suffix/path], already in lower case and stripped,
    parses to [(name, suffix)] when the scheme has no colon, the host no
    colon or slash, and the suffix no dot; a bare [name.suffix] that does
    not start with [www.] parses to the same pair. *)
Theorem parse_domain_url (P : Platform) (scheme name suffix path : str) :
  tldextract_extract P = None ->
  ~ In 58 scheme ->
  ~ In 58 name -> ~ In 47 name ->
  ~ In 58 suffix -> ~ In 47 suffix -> ~ In 46 suffix ->
  let bare := name ++ u "." ++ suffix in
  let url := scheme ++ u "://" ++ (u "www." ++ bare) ++ u "/" ++ path in
  (strip (str_lower P url) = url -> _parse_domain P url = (name, suffix)) /\
  (strip (str_lower P bare) = bare -> startswith (u "www.") bare = false ->
   _parse_domain P bare = (name, suffix)).
Proof.
  intros Hext Hs Hn1 Hn2 Hx1 Hx2 Hx3 bare url.
  assert (Hb1 : ~ In 58 bare).
  { subst bare. intros H. apply in_app_or in H as [H|H]; [contradiction|].
    destruct H as [H|H]; [discriminate H | contradiction]. }
  assert (Hb2 : ~ In 47 bare).
  { subst bare. intros H. apply in_app_or in H as [H|H]; [contradiction|].
    destruct H as [H|H]; [discriminate H | contradiction]. }
  assert (Hparse : rsplit1 (u ".") bare = [name; suffix]).
  { subst bare. apply (rsplit1_last 46). exact Hx3. }
  split.
  - intros Hnorm. unfold _parse_domain, strip_target. rewrite Hext, Hnorm.
    assert (Hh1 : ~ In 58 (u "www." ++ bare)).
    { intros H. apply in_app_or in H as [H|H]; [|contradiction].
      vm_compute in H. repeat (destruct H as [H|H]; [discriminate H|]). exact H. }
    assert (Hh2 : ~ In 47 (u "www." ++ bare)).
    { intros H. apply in_app_or in H as [H|H]; [|contradiction].
      vm_compute in H. repeat (destruct H as [H|H]; [discriminate H|]). exact H. }
    destruct (strip_url scheme (u "www." ++ bare) path Hs Hh1 Hh2) as (Hc1 & Hc2 & Hhost).
    fold url in Hc1, Hc2, Hhost. rewrite Hc1, Hc2, Hhost.
    rewrite (startswith_app (u "www.") bare).
    change (drop 4 (u "www." ++ bare)) with bare.
    rewrite Hparse. reflexivity.
  - intros Hnorm Hwww. unfold _parse_domain, strip_target. rewrite Hext, Hnorm.
    change (u "://") with (58 :: [47; 47]). change (u "/") with (47 :: []).
    rewrite (contains_absent 58 [47; 47] bare Hb1), (contains_absent 47 [] bare Hb2).
    rewrite Hwww, Hparse. reflexivity.
Qed.

(** A lower-case URL and a bare domain on the ASCII platform. *)
Lemma parse_domain_url_witness :
  _parse_domain ascii_platform (u "https://www.example.co.uk/login?next=/home")
    = (u "example.co", u "uk") /\
  _parse_domain ascii_platform (u "example.com") = (u "example", u "com").
Proof.
  split.
  - apply (parse_domain_url ascii_platform (u "https") (u "example.co") (u "uk")
             (u "login?next=/home"));
      try reflexivity;
      vm_compute; intros H; repeat (destruct H as [H|H]; [discriminate H|]); exact H.
  - apply (parse_domain_url ascii_platform (u "https") (u "example") (u "com") []);
      try reflexivity;
      vm_compute; intros H; repeat (destruct H as [H|H]; [discriminate H|]); exact H.
Defined.

(** *** How many variants a run can return *)

Local Open Scope nat_scope.

Lemma flat_map_length_le {A B : Type} (f : A -> list B) (l : list A) (k : nat) :
  (forall x, length (f x) <= k) -> length (flat_map f l) <= k * length l.
Proof.
  intros H. induction l as [|x rest IH]; simpl; [lia|].
  rewrite length_app. specialize (H x). lia.
Qed.

Lemma flat_map_length_sum {A B : Type} (f : A -> list B) (g : A -> nat) (l : list A) :
  (forall x, length (f x) <= g x) -> length (flat_map f l) <= list_sum (map g l).
Proof.
  intros H. induction l as [|x rest IH]; simpl; [lia|].
  rewrite length_app. specialize (H x). lia.
Qed.

Lemma zip_seq_length {A : Type} (l : list A) (k : nat) :
  length (zip (seq k (length l)) l) = length l.
Proof.
  revert k. induction l as [|x rest IH]; intros k; simpl; [reflexivity|].
  rewrite IH. reflexivity.
Qed.

Lemma enumerate_length {A : Type} (l : list A) : length (enumerate l) = length l.
Proof. apply zip_seq_length. Qed.

Lemma flat_map_enumerate_length {A B : Type} (f : nat * A -> list B) (k : nat) (l : list A) :
  (forall x, length (f x) <= k) -> length (flat_map f (enumerate l)) <= k * length l.
Proof.
  intros H. rewrite <- (enumerate_length l). apply flat_map_length_le. exact H.
Qed.

Lemma range_length (lo hi : nat) : length (range lo hi) = hi - lo.
Proof. unfold range. apply length_seq. Qed.

Lemma dict_get_Forall {V : Type} (Q : V -> Prop) (d : list (str * V)) (k : str) (v : V) :
  Forall (fun kv => Q kv.2) d -> dict_get d k = Some v -> Q v.
Proof.
  induction 1 as [|[k0 v0] rest H0 _ IH]; simpl; [discriminate|].
  destruct (str_eqb k0 k); [intros [= <-]; exact H0 | exact IH].
Qed.

Lemma take_length_le {A : Type} (n : nat) (l : list A) : length (take n l) <= n.
Proof. rewrite length_take. lia. Qed.

Lemma flat_map_take_length {A B : Type} (f : A -> list B) (k n : nat) (l : list A) :
  (forall x, length (f x) <= k) -> length (flat_map f (take n l)) <= k * n.
Proof.
  intros H. etransitivity; [apply (flat_map_length_le f _ k H)|].
  pose proof (take_length_le n l). nia.
Qed.

Lemma confusable_calls_length f name suffix positions :
  length (confusable_calls f name suffix positions) <= 4 * length positions.
Proof.
  induction positions as [|[i char] rest IH]; [simpl; lia|].
  cbn [confusable_calls]. destruct (f char) as [conf|msg]; [|simpl; lia].
  rewrite length_app. cbn [length].
  match goal with
  | |- length (flat_map ?g (take 2 conf)) + _ <= _ =>
    assert (H : length (flat_map g (take 2 conf)) <= 2 * 2)
  end.
  { apply flat_map_take_length. intros item.
    apply (flat_map_take_length _ 1 2). intros repl.
    destruct (_ && _); simpl; lia. }
  lia.
Qed.

Lemma homograph_calls_length P name suffix :
  length (homograph_calls P name suffix) <= 7 * length name.
Proof.
  unfold homograph_calls. rewrite length_app.
  assert (H1 : length (flat_map (fun '(i, char) =>
      match dict_get HOMOGRAPH_MAPPINGS [char] with
      | Some replacements =>
        map (fun replacement =>
               mk_call (substitute name i replacement) suffix (u "homograph")
                 (u "Replaced '" ++ [char] ++ u "' with '" ++ replacement ++ u "'"))
            (take 3 replacements)
      | None => []
      end) (enumerate name)) <= 3 * length name).
  { apply flat_map_enumerate_length.
    intros [i char]. destruct (dict_get _ _) as [r|]; simpl; [|lia].
    rewrite length_map. apply take_length_le. }
  assert (H2 : length (match confusables_is_confusable P with
                       | Some f => confusable_calls f name suffix (enumerate name)
                       | None => []
                       end) <= 4 * length name).
  { destruct (confusables_is_confusable P); simpl; [|lia].
    rewrite <- (enumerate_length name). apply confusable_calls_length. }
  lia.
Qed.

Lemma leetspeak_table : Forall (fun kv => length kv.2 <= 3) LEETSPEAK_MAPPINGS.
Proof. repeat constructor; simpl; lia. Qed.

Lemma leetspeak_calls_length name suffix :
  length (leetspeak_calls name suffix) <= 3 * length name.
Proof.
  unfold leetspeak_calls. apply flat_map_enumerate_length. intros [i char].
  destruct (dict_get _ _) as [r|] eqn:E; simpl; [|lia].
  rewrite length_map. exact (dict_get_Forall (fun r => length r <= 3) _ _ _ leetspeak_table E).
Qed.

Lemma typo_calls_length name suffix : length (typo_calls name suffix) <= 2 * length name.
Proof.
  unfold typo_calls. apply flat_map_enumerate_length. intros [i char].
  destruct (dict_get _ _) as [r|]; simpl; [|lia].
  rewrite length_map. apply take_length_le.
Qed.

Lemma phonetic_calls_length name suffix : length (phonetic_calls name suffix) <= 21.
Proof.
  unfold phonetic_calls.
  etransitivity; [apply (flat_map_length_sum _ (fun kv => length kv.2))|].
  - intros [pattern replacements]. destruct (contains pattern name); simpl; [|lia].
    rewrite length_map. lia.
  - vm_compute. lia.
Qed.

Lemma repetition_calls_length P name suffix :
  length (repetition_calls P name suffix) <= 1 * length name.
Proof.
  unfold repetition_calls. apply flat_map_enumerate_length. intros [i char]. destruct (char_isalpha P char); simpl; lia.
Qed.

Lemma omission_calls_length name suffix : length (omission_calls name suffix) <= 1 * length name.
Proof.
  unfold omission_calls.
  etransitivity; [apply (flat_map_length_le _ _ 1)|rewrite range_length; lia].
  intros i. cbv zeta. destruct (negb _); simpl; lia.
Qed.

Lemma insertion_calls_length name suffix :
  length (insertion_calls name suffix) <= 10 * (length name + 1).
Proof.
  unfold insertion_calls. cbv zeta.
  etransitivity; [apply (flat_map_length_le _ _ 10)|rewrite range_length; lia].
  intros i. rewrite length_map. vm_compute. lia.
Qed.

Lemma transposition_calls_length name suffix :
  length (transposition_calls name suffix) <= length name.
Proof. unfold transposition_calls. rewrite length_map, range_length. lia. Qed.

Lemma hyphenation_calls_length name suffix :
  length (hyphenation_calls name suffix) <= length name + 1.
Proof.
  unfold hyphenation_calls. rewrite length_app, length_map, range_length.
  destruct (contains _ name); simpl; lia.
Qed.

Lemma tld_calls_length name suffix : length (tld_calls name suffix) <= 62.
Proof.
  unfold tld_calls.
  etransitivity; [apply (flat_map_length_le _ _ 1)|vm_compute; lia].
  intros alt. destruct (negb _); simpl; lia.
Qed.

Lemma prefix_calls_length name suffix : length (prefix_calls name suffix) = 20.
Proof. unfold prefix_calls. rewrite length_map. reflexivity. Qed.

Lemma suffix_calls_length name suffix : length (suffix_calls name suffix) = 26.
Proof. unfold suffix_calls. rewrite length_map. reflexivity. Qed.

Lemma vowel_swap_calls_length name suffix :
  length (vowel_swap_calls name suffix) <= 5 * length name.
Proof.
  unfold vowel_swap_calls. cbv zeta. apply flat_map_enumerate_length. intros [i char].
  destruct (char_in char (u "aeiou")); [|simpl; lia].
  etransitivity; [apply (flat_map_length_le _ _ 1)|vm_compute; lia].
  intros vowel. destruct (negb _); simpl; lia.
Qed.

Lemma double_char_calls_length name suffix :
  length (double_char_calls name suffix) <= length name.
Proof.
  unfold double_char_calls.
  etransitivity; [apply (flat_map_length_le _ _ 1)|rewrite range_length; lia].
  intros i. destruct (_ =? _)%Z; simpl; lia.
Qed.

Lemma bitsquatting_calls_length name suffix :
  length (bitsquatting_calls name suffix) <= 8 * length name.
Proof.
  unfold bitsquatting_calls. apply flat_map_enumerate_length. intros [i char]. cbv zeta.
  etransitivity; [apply (flat_map_length_le _ _ 1)|rewrite range_length; lia].
  intros bit. destruct (_ && _); [|simpl; lia]. destruct (negb _); simpl; lia.
Qed.

Lemma subdomain_calls_length name suffix : length (subdomain_calls name suffix) = 6.
Proof. unfold subdomain_calls. cbv zeta. rewrite length_map. reflexivity. Qed.

Lemma run_calls_length P calls : forall self,
  length (run_calls P self calls).1 <= length calls.
Proof.
  induction calls as [|c rest IH]; intros self; cbn [run_calls]; [simpl; lia|].
  destruct (_add_variant P self _ _ _ _) as [v self1]. specialize (IH self1).
  destruct (run_calls P self1 rest) as [vs self2]. simpl in *.
  destruct v; simpl; lia.
Qed.

Lemma run_techniques_length P techs : forall self,
  length (run_techniques P self techs).1
  <= calls_total P (domain_name self) (tld self) techs.
Proof.
  induction techs as [|t rest IH]; intros self; cbn [run_techniques]; [simpl; lia|].
  unfold calls_total in *. cbn [map list_sum]. rewrite dict_get_methods.
  destruct (dict_get (technique_calls P) t) as [calls|]; cbn [option_map].
  - unfold run_technique.
    pose proof (run_calls_length P (calls (domain_name self) (tld self)) self) as H1.
    pose proof (run_calls_emission P (calls (domain_name self) (tld self)) self) as He.
    destruct (run_calls P self _) as [results self1]. specialize (IH self1).
    destruct He as [_ Hn Ht _ _ _ _ _]. cbn [fst snd] in *. rewrite Hn, Ht in IH.
    destruct (run_techniques P self1 rest) as [variants self2]. cbn [fst] in *.
    rewrite length_app. unfold list_sum in *. cbn [fold_right]. lia.
  - specialize (IH self). unfold list_sum in *. cbn [fold_right]. lia.
Qed.

Lemma calls_total_all P name suffix :
  calls_total P name suffix (all_techniques P) =
  length (homograph_calls P name suffix) + (length (leetspeak_calls name suffix) +
  (length (typo_calls name suffix) + (length (phonetic_calls name suffix) +
  (length (repetition_calls P name suffix) + (length (omission_calls name suffix) +
  (length (insertion_calls name suffix) + (length (transposition_calls name suffix) +
  (length (hyphenation_calls name suffix) + (length (tld_calls name suffix) +
  (length (prefix_calls name suffix) + (length (suffix_calls name suffix) +
  (length (vowel_swap_calls name suffix) + (length (double_char_calls name suffix) +
  (length (bitsquatting_calls name suffix) + (length (subdomain_calls name suffix) + 0))))))))))))))).
Proof. reflexivity. Qed.

(** X22. A run over all techniques returns at most [40 * len(name) + 146]
    variants, whatever the cap: every loop is bounded by the length of the
    name or by the size of a table, and the homograph and typo loops take
    at most three and two replacements per character. *)
Theorem generate_all_linear_bound (P : Platform) (self : HomographGenerator) :
  In (u "all") (techniques (config self)) ->
  length (generate_all P self).1 <= 40 * length (domain_name self) + 146.
Proof.
  intros Hall. unfold generate_all.
  assert (He : existsb (str_eqb (u "all")) (techniques (config self)) = true).
  { apply existsb_exists. exists (u "all"). split; [exact Hall|].
    apply bool_decide_eq_true. reflexivity. }
  rewrite He.
  etransitivity; [apply run_techniques_length|].
  rewrite calls_total_all.
  set (name := domain_name self). set (suffix := tld self).
  pose proof (homograph_calls_length P name suffix).
  pose proof (leetspeak_calls_length name suffix).
  pose proof (typo_calls_length name suffix).
  pose proof (phonetic_calls_length name suffix).
  pose proof (repetition_calls_length P name suffix).
  pose proof (omission_calls_length name suffix).
  pose proof (insertion_calls_length name suffix).
  pose proof (transposition_calls_length name suffix).
  pose proof (hyphenation_calls_length name suffix).
  pose proof (tld_calls_length name suffix).
  pose proof (prefix_calls_length name suffix).
  pose proof (suffix_calls_length name suffix).
  pose proof (vowel_swap_calls_length name suffix).
  pose proof (double_char_calls_length name suffix).
  pose proof (bitsquatting_calls_length name suffix).
  pose proof (subdomain_calls_length name suffix).
  lia.
Qed.

(** The default configuration on [paypal.com]: 260 variants, at most
    40 * 6 + 146. *)
Lemma generate_all_linear_bound_witness :
  let self := new_HomographGenerator ascii_platform (default_config (u "paypal.com")) in
  length (generate_all ascii_platform self).1 <= 40 * length (domain_name self) + 146.
Proof.
  intros self. apply (generate_all_linear_bound ascii_platform self).
  left. reflexivity.
Defined.

(** *** Names too short for a technique *)

(** X23. For a name of at most one character the omission, transposition
    and double-character techniques return nothing and leave the
    generator as it is, and so does the hyphenation technique when the
    name contains no hyphen. *)
Theorem short_name_techniques (P : Platform) (self : HomographGenerator) :
  length (domain_name self) <= 1 ->
  _generate_omission P self = ([], self) /\
  _generate_transposition P self = ([], self) /\
  _generate_double_char P self = ([], self) /\
  (contains (u "-") (domain_name self) = false ->
   _generate_hyphenation P self = ([], self)).
Proof.
  intros Hlen.
  unfold _generate_omission, _generate_transposition, _generate_double_char,
    _generate_hyphenation, run_technique.
  destruct (domain_name self) as [|c [|c' rest]]; [| |simpl in Hlen; lia].
  - split; [reflexivity | split; [reflexivity | split; [reflexivity|]]].
    intros Hc. unfold hyphenation_calls. rewrite Hc. reflexivity.
  - split; [reflexivity | split; [reflexivity | split; [reflexivity|]]].
    intros Hc. unfold hyphenation_calls. rewrite Hc. reflexivity.
Qed.

Lemma short_name_techniques_witness :
  let self := new_HomographGenerator ascii_platform (default_config (u "a.com")) in
  _generate_omission ascii_platform self = ([], self) /\
  _generate_transposition ascii_platform self = ([], self) /\
  _generate_double_char ascii_platform self = ([], self) /\
  (contains (u "-") (domain_name self) = false ->
   _generate_hyphenation ascii_platform self = ([], self)).
Proof.
  intros self. apply (short_name_techniques ascii_platform self).
  vm_compute. repeat constructor.
Defined.

Local Close Scope nat_scope.
